(** * The invite endpoint of community-strands-gg

    A shallow embedding of [src/pages/api/invite.ts] (the [GET] route) and
    the properties of its invite lifecycle: when a cached invite is served,
    when it is replaced, and how cache and upstream faults are handled.

    The handler talks to three collaborators: the key-value namespace
    [DISCORD_INVITES], the Discord REST endpoint reached through [fetch],
    and the platform ([Date.now], [crypto.randomUUID]).  Their answers are
    inputs of the model; what the handler asks of them is recorded, call by
    call, so that "without calling the issuing service" or "no cache write"
    are statements about the calls of a run.

    Conventions.
    - Timestamps are integers (milliseconds since the epoch); JavaScript
      computes with them exactly below 2^53.
    - Values read from the namespace and from Discord have the shape the
      source declares for them (lines 77 and 146); anything else is covered
      by the call throwing.
    - An awaited call returns or throws ([Outcome]); a [try] is a match on
      the outcome.  A call of the namespace that throws leaves it unchanged.
    - [console] output is not modelled, except that formatting a date for
      it can throw (lines 84 and 176), which the enclosing [try] catches.
    - Building a response can throw where the status is not a constant
      (line 140); the [try] of line 117 catches that too. *)

From Stdlib Require Import ZArith String Ascii List Bool Lia.
From stdpp Require Import base option gmap strings list fin_maps.

Local Open Scope string_scope.
Local Open Scope Z_scope.
Local Open Scope list_scope.

(** ** JavaScript values the handler looks at *)

(** [x] in a condition, for [x : string | null]: null and the empty string
    are falsy. *)
Definition truthy (x : option string) : bool :=
  match x with
  | Some (String _ _) => true
  | Some EmptyString => false
  | None => false
  end.

(** [x || ''] *)
Definition or_empty (x : option string) : string :=
  match x with
  | Some s => s
  | None => ""
  end.

(** [s.startsWith(p)] *)
Definition startsWith (s p : string) : bool := String.prefix p s.

(** A case-insensitive regular expression made of literal characters only,
    such as [/go-http/i]: [test] looks for the literal anywhere in the
    subject, letters compared without case.  Without the [u] flag a
    character outside ASCII never matches an ASCII letter, so folding the
    26 letters is exact. *)
Definition lower (c : ascii) : ascii :=
  let n := nat_of_ascii c in
  if ((65 <=? n)%nat && (n <=? 90)%nat)%bool then ascii_of_nat (n + 32) else c.

Fixpoint lower_string (s : string) : string :=
  match s with
  | EmptyString => EmptyString
  | String c s' => String (lower c) (lower_string s')
  end.

Fixpoint includes (s p : string) : bool :=
  if String.prefix p s then true
  else match s with
       | EmptyString => false
       | String _ s' => includes s' p
       end.

Definition test_i (pattern subject : string) : bool :=
  includes (lower_string subject) (lower_string pattern).

(** [new Date(t).toISOString()] throws a [RangeError] unless [t] is a time
    value, that is within 8.64e15 ms of the epoch. *)
Definition MAX_TIME : Z := 8640000000000000.

Definition valid_time (t : Z) : bool := (- MAX_TIME <=? t) && (t <=? MAX_TIME).

(** ** Data model *)

(** The object stored under a client identifier (lines 157-162, and the cast
    of line 77).  Timestamps are integers, milliseconds since the epoch. *)
Record InviteRecord := {
  uuid : string;
  code : string;
  expiresAt : Z;
  createdAt : Z
}.

(** What [KV.put(key, value, { expirationTtl })] leaves in the namespace. *)
Record KvEntry := {
  value : InviteRecord;
  expirationTtl : Z
}.

(** An awaited call either returns or throws. *)
Inductive Outcome (A : Type) : Type :=
| Returned (a : A)
| Thrown.
Arguments Returned {A} a.
Arguments Thrown {A}.

(** The response of [fetch]: [status], what [text()] yields and what
    [json()] yields.  [json] is narrowed to what the handler reads of it,
    the [code] field ([None] when the object has no such field); [Thrown]
    stands for a body that is not JSON, or is [null], both of which raise
    inside the issuing [try]. *)
Record FetchResponse := {
  fr_status : Z;
  fr_text : Outcome string;
  fr_json : Outcome (option string)
}.

(** [response.ok]: the status is in the range 200-299. *)
Definition ok (r : FetchResponse) : bool :=
  (200 <=? fr_status r) && (fr_status r <=? 299).

(** The body the handler serialises with [JSON.stringify]. *)
Inductive Body :=
| ErrorBody (error : string) (details : option string)
| InviteBody (b_uuid b_code : string) (b_expiresAt : Z) (cached : bool)
             (serverTime : Z).

Record Response := {
  status : Z;
  body : Body
}.

(** The request as the handler reads it. *)
Record Request := {
  h_Origin : option string;        (* request.headers.get('Origin') *)
  h_Referer : option string;       (* request.headers.get('Referer') *)
  h_UserAgent : option string;     (* request.headers.get('User-Agent') *)
  url_origin : string;             (* url.origin *)
  q_email : option string;         (* url.searchParams.get('email') *)
  q_uuid : option string           (* url.searchParams.get('uuid') *)
}.

(** The binding [DISCORD_INVITES].  Which of its operations throw is part of
    the environment: the handler calls each at most once per request. *)
Record KVNamespace := {
  get_throws : bool;
  delete_throws : bool;
  put_throws : bool
}.

(** [locals.runtime?.env] *)
Record Env := {
  DISCORD_BOT_TOKEN : option string;
  DISCORD_CHANNEL_ID : option string;
  DISCORD_INVITES : option KVNamespace
}.

(** The platform and the upstream service during one request. *)
Record World := {
  Date_now : Z;
  crypto_randomUUID : string;
  discord : Outcome FetchResponse
}.

(** ** Effects *)

Inductive Event :=
| KvGet (key : string)
| KvDelete (key : string)
| KvPut (key : string) (v : InviteRecord) (ttl : Z)
| Fetch (channel token : string) (max_age max_uses : Z)
        (temporary unique : bool)
| RandomUUID.

(** The contents of the namespace: what is stored under each key. *)
Abbreviation Store := (gmap string KvEntry).

(** A run of a piece of the handler from a given namespace: what it
    returns, the namespace it leaves and the calls it made, oldest first. *)
Record Run (A : Type) := {
  returned : A;
  kv_after : Store;
  calls : list Event
}.
Arguments returned {A} _.
Arguments kv_after {A} _.
Arguments calls {A} _.

Definition M (A : Type) : Type := Store -> Run A.

Definition ret {A} (a : A) : M A :=
  fun m => {| returned := a; kv_after := m; calls := [] |}.

Definition bind {A B} (c : M A) (k : A -> M B) : M B :=
  fun m =>
    let r1 := c m in
    let r2 := k (returned r1) (kv_after r1) in
    {| returned := returned r2; kv_after := kv_after r2;
       calls := calls r1 ++ calls r2 |}.

Notation "x <- c ;; k" := (bind c (fun x => k))
  (at level 100, c at next level, right associativity).

Definition emit (e : Event) : M unit :=
  fun m => {| returned := tt; kv_after := m; calls := [e] |}.

Definition modify_store (f : Store -> Store) : M unit :=
  fun m => {| returned := tt; kv_after := f m; calls := [] |}.

Definition read_store : M Store :=
  fun m => {| returned := m; kv_after := m; calls := [] |}.

(** [await KV.get(key, 'json')] *)
Definition KV_get (kv : KVNamespace) (key : string)
  : M (Outcome (option InviteRecord)) :=
  _ <- emit (KvGet key) ;;
  if get_throws kv then ret Thrown
  else m <- read_store ;; ret (Returned (value <$> m !! key)).

(** [await KV.delete(key)] *)
Definition KV_delete (kv : KVNamespace) (key : string) : M (Outcome unit) :=
  _ <- emit (KvDelete key) ;;
  if delete_throws kv then ret Thrown
  else _ <- modify_store (delete key) ;; ret (Returned tt).

(** [await KV.put(key, JSON.stringify(v), { expirationTtl: ttl })] *)
Definition KV_put (kv : KVNamespace) (key : string) (v : InviteRecord)
  (ttl : Z) : M (Outcome unit) :=
  _ <- emit (KvPut key v ttl) ;;
  if put_throws kv then ret Thrown
  else _ <- modify_store (insert key {| value := v; expirationTtl := ttl |}) ;;
       ret (Returned tt).

(** [crypto.randomUUID()] *)
Definition randomUUID (w : World) : M string :=
  _ <- emit RandomUUID ;; ret (crypto_randomUUID w).

(** The [fetch] of lines 120-135. *)
Definition fetch_invite (w : World) (channel token : string)
  : M (Outcome FetchResponse) :=
  _ <- emit (Fetch channel token 120 1 false true) ;; ret (discord w).

(** ** The handler *)

Definition json_error (st : Z) (msg : string) (details : option string)
  : Response :=
  {| status := st; body := ErrorBody msg details |}.

(** [new Response(body, { status })], with a body, throws unless the status
    is in 200-599 (a [RangeError]) and is not a null-body status (a
    [TypeError]).  The handler builds its answers with the constants 200,
    400, 403 and 500, which pass, except at line 140, where the status is
    the upstream one. *)
Definition null_body_status (st : Z) : bool :=
  (st =? 101) || (st =? 103) || (st =? 204) || (st =? 205) || (st =? 304).

Definition Response_accepts (st : Z) : bool :=
  (200 <=? st) && (st <=? 599) && negb (null_body_status st).

Definition kvKey (id : string) : string := "discord:invite:" +:+ id.

Definition botPatterns : list string :=
  ["bot"; "crawler"; "spider"; "scraper"; "curl"; "wget"; "python";
   "go-http"; "java"].

(** Line 17. *)
Definition cors_violation (req : Request) : bool :=
  let origin := h_Origin req in
  let referer := h_Referer req in
  let allowedOrigin := url_origin req in
  (truthy origin && negb (String.eqb (or_empty origin) allowedOrigin))
  || (truthy referer && negb (startsWith (or_empty referer) allowedOrigin)).

(** Line 25. *)
Definition missing_configuration (env : Env) : bool :=
  negb (truthy (DISCORD_BOT_TOKEN env)) || negb (truthy (DISCORD_CHANNEL_ID env)).

(** Line 56. *)
Definition bot_user_agent (req : Request) : bool :=
  let userAgent := or_empty (h_UserAgent req) in
  existsb (fun pattern => test_i pattern userAgent) botPatterns.

(** Lines 71-109.  [Some r]: the handler returns [r] from inside the block;
    [None]: control reaches line 111. *)
Definition consult_cache (now : Z) (env : Env) (clientUuid : option string)
  : M (option Response) :=
  if truthy clientUuid then
    match DISCORD_INVITES env with
    | Some KV =>
        let kvKey := kvKey (or_empty clientUuid) in
        cachedData <- KV_get KV kvKey ;;
        match cachedData with
        | Thrown => ret None                         (* catch, line 106 *)
        | Returned None => ret None
        | Returned (Some cachedInvite) =>
            let timeRemaining := expiresAt cachedInvite - now in
            let isValid := 10000 <? timeRemaining in
            if isValid then
              (* the log of line 84 formats the expiry date; a failure
                 there is caught at line 106 *)
              if valid_time (expiresAt cachedInvite) then
                ret (Some {| status := 200;
                             body := InviteBody (uuid cachedInvite)
                                       (code cachedInvite)
                                       (expiresAt cachedInvite) true now |})
              else ret None
            else
              _ <- KV_delete KV kvKey ;;             (* own try, line 98 *)
              ret None
        end
    | None => ret None
    end
  else ret None.

(** Lines 117-194, with [id] the identifier after line 114. *)
Definition generate_invite (w : World) (now : Z) (env : Env) (id : string)
  : M Response :=
  let internal_error := json_error 500 "Internal server error" None in
  response <- fetch_invite w (or_empty (DISCORD_CHANNEL_ID env))
                             (or_empty (DISCORD_BOT_TOKEN env)) ;;
  match response with
  | Thrown => ret internal_error
  | Returned response =>
      if negb (ok response) then
        match fr_text response with
        | Thrown => ret internal_error
        | Returned error =>
            (* the constructor of line 140 is inside the try of line 117 *)
            if Response_accepts (fr_status response) then
              ret (json_error (fr_status response) "Failed to generate invite"
                              (Some error))
            else ret internal_error
        end
      else
        match fr_json response with
        | Thrown => ret internal_error
        | Returned data_code =>
            let expiresAt := now + 120 * 1000 in
            if negb (truthy data_code) then
              ret (json_error 500 "Invalid response from Discord API" None)
            else
              let inviteData :=
                {| uuid := id; code := or_empty data_code;
                   expiresAt := expiresAt; createdAt := now |} in
              _ <- match DISCORD_INVITES env with
                   | Some KV =>
                       let ttlSeconds := (expiresAt - now) / 1000 in
                       _ <- KV_put KV (kvKey id) inviteData ttlSeconds ;;
                       ret tt                        (* own try, line 166 *)
                   | None => ret tt
                   end ;;
              (* the log of line 176 formats [expiresAt] *)
              if valid_time expiresAt then
                ret {| status := 200;
                       body := InviteBody id (or_empty data_code) expiresAt
                                 false now |}
              else ret internal_error
        end
  end.

(** Lines 64-194: the invite lifecycle, entered once the request has passed
    the filters of lines 11-62. *)
Definition issue_or_reuse (w : World) (env : Env) (req : Request)
  : M Response :=
  let now := Date_now w in
  let clientUuid := q_uuid req in
  early <- consult_cache now env clientUuid ;;
  match early with
  | Some r => ret r
  | None =>
      id <- (if truthy clientUuid then ret (or_empty clientUuid)
             else randomUUID w) ;;                      (* line 112 *)
      generate_invite w now env id
  end.

Definition GET (w : World) (env : Env) (req : Request) : M Response :=
  if cors_violation req then ret (json_error 403 "Forbidden" None)
  else if missing_configuration env then
    ret (json_error 500 "Missing Discord bot configuration" None)
  else
    let honeypot := q_email req in
    if truthy honeypot then ret (json_error 400 "Invalid request" None)
    else if bot_user_agent req then ret (json_error 403 "Invalid request" None)
    else issue_or_reuse w env req.

(** ** Vocabulary of the statements *)

(** The request passes the four filters of lines 11-62 and reaches the
    invite lifecycle. *)
Definition reaches_core (env : Env) (req : Request) : bool :=
  negb (cors_violation req) && negb (missing_configuration env)
  && negb (truthy (q_email req)) && negb (bot_user_agent req).

(** Kinds of calls. *)
Definition is_kv_read (e : Event) : bool :=
  match e with KvGet _ => true | _ => false end.

Definition is_kv_write (e : Event) : bool :=
  match e with KvPut _ _ _ => true | _ => false end.

Definition is_kv_call (e : Event) : bool :=
  match e with KvGet _ | KvDelete _ | KvPut _ _ _ => true | _ => false end.

(** The identifier the lifecycle works with after line 114. *)
Definition resolved_id (w : World) (req : Request) : string :=
  if truthy (q_uuid req) then or_empty (q_uuid req) else crypto_randomUUID w.

(** The record built at lines 157-162. *)
Definition new_invite (w : World) (id c : string) : InviteRecord :=
  {| uuid := id; code := c;
     expiresAt := Date_now w + 120000; createdAt := Date_now w |}.

(** The call of lines 120-135 for an environment. *)
Definition fetch_call (env : Env) : Event :=
  Fetch (or_empty (DISCORD_CHANNEL_ID env)) (or_empty (DISCORD_BOT_TOKEN env))
        120 1 false true.

(** The upstream service answers with a success status and a code. *)
Definition upstream_issues (w : World) (c : string) : Prop :=
  exists r, discord w = Returned r /\ ok r = true
            /\ fr_json r = Returned (Some c) /\ c <> "".

Arguments kvKey : simpl never.
Arguments valid_time : simpl never.
Arguments Response_accepts : simpl never.

(** The namespace after the delete of line 99: a call that throws leaves it
    as it was. *)
Definition after_delete (KV : KVNamespace) (key : string) (m : Store) : Store :=
  if delete_throws KV then m else delete key m.

(** The namespace after the write of line 169, likewise. *)
Definition after_put (env : Env) (key : string) (v : InviteRecord) (m : Store)
  : Store :=
  match DISCORD_INVITES env with
  | Some KV =>
      if put_throws KV then m
      else <[key := {| value := v; expirationTtl := 120 |}]> m
  | None => m
  end.

(** The write of line 169 as a call: made only with a binding. *)
Definition put_call (env : Env) (key : string) (v : InviteRecord)
  : list Event :=
  match DISCORD_INVITES env with
  | Some _ => [KvPut key v 120]
  | None => []
  end.

(** The answer of lines 85-94. *)
Definition cached_response (now : Z) (c : InviteRecord) : Response :=
  {| status := 200;
     body := InviteBody (uuid c) (code c) (expiresAt c) true now |}.

(** The four ways the block of lines 71-109 ends: not entered; entered and
    left with nothing to serve (the read threw, found nothing, or found a
    record whose date cannot be formatted); a valid record served; a stale
    record deleted. *)
Inductive Consulted (now : Z) (env : Env) (x : option string) (m : Store)
  : Run (option Response) -> Prop :=
| consulted_skipped :
    truthy x = false \/ DISCORD_INVITES env = None ->
    Consulted now env x m {| returned := None; kv_after := m; calls := [] |}
| consulted_nothing KV id :
    x = Some id -> id <> "" -> DISCORD_INVITES env = Some KV ->
    get_throws KV = true \/ m !! kvKey id = None
    \/ (exists e, m !! kvKey id = Some e
                  /\ expiresAt (value e) - now > 10000
                  /\ valid_time (expiresAt (value e)) = false) ->
    Consulted now env x m
      {| returned := None; kv_after := m; calls := [KvGet (kvKey id)] |}
| consulted_hit KV id e :
    x = Some id -> id <> "" -> DISCORD_INVITES env = Some KV ->
    get_throws KV = false -> m !! kvKey id = Some e ->
    expiresAt (value e) - now > 10000 ->
    valid_time (expiresAt (value e)) = true ->
    Consulted now env x m
      {| returned := Some (cached_response now (value e)); kv_after := m;
         calls := [KvGet (kvKey id)] |}
| consulted_stale KV id e :
    x = Some id -> id <> "" -> DISCORD_INVITES env = Some KV ->
    get_throws KV = false -> m !! kvKey id = Some e ->
    expiresAt (value e) - now <= 10000 ->
    Consulted now env x m
      {| returned := None;
         kv_after := after_delete KV (kvKey id) m;
         calls := [KvGet (kvKey id); KvDelete (kvKey id)] |}.

(** The call of line 113, made when no identifier was supplied. *)
Definition id_calls (req : Request) : list Event :=
  if truthy (q_uuid req) then [] else [RandomUUID].

(** The answer of lines 178-187. *)
Definition issued_response (w : World) (id c : string) : Response :=
  {| status := 200;
     body := InviteBody id c (Date_now w + 120000) false (Date_now w) |}.

(** The namespace is as found, up to the delete of a stale entry found under
    the supplied identifier. *)
Definition unchanged_but_stale_delete (env : Env) (req : Request) (now : Z)
  (m m' : Store) : Prop :=
  m' = m
  \/ exists KV id e,
       DISCORD_INVITES env = Some KV /\ q_uuid req = Some id /\ id <> ""
       /\ m !! kvKey id = Some e /\ expiresAt (value e) - now <= 10000
       /\ m' = after_delete KV (kvKey id) m.

(** The [error] field of an answer, if it has one. *)
Definition error_of (r : Response) : option string :=
  match body r with
  | ErrorBody msg _ => Some msg
  | InviteBody _ _ _ _ _ => None
  end.

(** The error messages of lines 64-194. *)
Definition lifecycle_errors : list string :=
  ["Internal server error"; "Failed to generate invite";
   "Invalid response from Discord API"].

(** The environment with the cache binding taken away. *)
Definition without_cache (env : Env) : Env :=
  {| DISCORD_BOT_TOKEN := DISCORD_BOT_TOKEN env;
     DISCORD_CHANNEL_ID := DISCORD_CHANNEL_ID env;
     DISCORD_INVITES := None |}.

(** [expiresAt > createdAt] for every record of the namespace. *)
Definition well_formed_store (m : Store) : Prop :=
  forall key e, m !! key = Some e -> expiresAt (value e) > createdAt (value e).

(** ** Sample requests *)

(** A namespace that works, and one whose every operation throws. *)
Definition ex_kv : KVNamespace :=
  {| get_throws := false; delete_throws := false; put_throws := false |}.

Definition ex_kv_down : KVNamespace :=
  {| get_throws := true; delete_throws := true; put_throws := true |}.

Definition ex_env : Env :=
  {| DISCORD_BOT_TOKEN := Some "token"; DISCORD_CHANNEL_ID := Some "1234";
     DISCORD_INVITES := Some ex_kv |}.

Definition ex_env_down : Env :=
  {| DISCORD_BOT_TOKEN := Some "token"; DISCORD_CHANNEL_ID := Some "1234";
     DISCORD_INVITES := Some ex_kv_down |}.

Definition ex_env_unbound : Env :=
  {| DISCORD_BOT_TOKEN := Some "token"; DISCORD_CHANNEL_ID := Some "1234";
     DISCORD_INVITES := None |}.

(** A browser request from the site's own page, with an identifier. *)
Definition ex_req : Request :=
  {| h_Origin := None; h_Referer := Some "https://strands.gg/discord";
     h_UserAgent := Some "Mozilla/5.0 (X11; Linux x86_64) Firefox/128.0";
     url_origin := "https://strands.gg"; q_email := None;
     q_uuid := Some "c0ffee" |}.

(** The same without an identifier. *)
Definition ex_req_anonymous : Request :=
  {| h_Origin := None; h_Referer := Some "https://strands.gg/discord";
     h_UserAgent := Some "Mozilla/5.0 (X11; Linux x86_64) Firefox/128.0";
     url_origin := "https://strands.gg"; q_email := None; q_uuid := None |}.

(** Discord issues the code [c]. *)
Definition ex_issued (c : string) : Outcome FetchResponse :=
  Returned {| fr_status := 200; fr_text := Returned "";
              fr_json := Returned (Some c) |}.

(** Noon, 2 November 2026 (UTC), and moments after it. *)
Definition ex_t0 : Z := 1793620800000.

Definition ex_world (t : Z) (c : string) : World :=
  {| Date_now := t; crypto_randomUUID := "9b2f6c1e";
     discord := ex_issued c |}.

(** An invite issued at [ex_t0]. *)
Definition ex_record : InviteRecord :=
  {| uuid := "c0ffee"; code := "aBcD1234";
     expiresAt := ex_t0 + 120000; createdAt := ex_t0 |}.

(** A namespace holding that invite. *)
Definition ex_store : Store :=
  {[ kvKey "c0ffee" := {| value := ex_record; expirationTtl := 120 |} ]}.

(** Discord answers 429. *)
Definition ex_world_refused : World :=
  {| Date_now := ex_t0 + 110000; crypto_randomUUID := "9b2f6c1e";
     discord := Returned {| fr_status := 429;
                            fr_text := Returned "rate limited";
                            fr_json := Thrown |} |}.

(** Discord answers 502 and the connection drops before the body. *)
Definition ex_world_bad_gateway : World :=
  {| Date_now := ex_t0; crypto_randomUUID := "9b2f6c1e";
     discord := Returned {| fr_status := 502; fr_text := Thrown;
                            fr_json := Thrown |} |}.

(** Discord answers 304. *)
Definition ex_world_not_modified : World :=
  {| Date_now := ex_t0; crypto_randomUUID := "9b2f6c1e";
     discord := Returned {| fr_status := 304; fr_text := Returned "";
                            fr_json := Thrown |} |}.

(** Discord answers 200 with an object that has no code. *)
Definition ex_world_no_code : World :=
  {| Date_now := ex_t0; crypto_randomUUID := "9b2f6c1e";
     discord := Returned {| fr_status := 200; fr_text := Returned "{}";
                            fr_json := Returned None |} |}.

(** A form filled by a script on another site: the honeypot field is set and
    the Origin is foreign. *)
Definition ex_req_foreign_bot : Request :=
  {| h_Origin := Some "https://evil.example"; h_Referer := None;
     h_UserAgent := Some "Mozilla/5.0 (X11; Linux x86_64) Firefox/128.0";
     url_origin := "https://strands.gg";
     q_email := Some "bot@spam.example"; q_uuid := None |}.

(** The honeypot field set on a request from the site's own page. *)
Definition ex_req_honeypot : Request :=
  {| h_Origin := None; h_Referer := Some "https://strands.gg/discord";
     h_UserAgent := Some "Mozilla/5.0 (X11; Linux x86_64) Firefox/128.0";
     url_origin := "https://strands.gg";
     q_email := Some "bot@spam.example"; q_uuid := Some "c0ffee" |}.

(** A request with neither Origin nor Referer. *)
Definition ex_req_no_headers : Request :=
  {| h_Origin := None; h_Referer := None;
     h_UserAgent := Some "Mozilla/5.0 (X11; Linux x86_64) Firefox/128.0";
     url_origin := "https://strands.gg"; q_email := None;
     q_uuid := None |}.

(** ** Vocabulary of the further properties *)

(** An empty string read as an absent value. *)
Definition absent_if_empty (x : option string) : option string :=
  if truthy x then x else None.

Definition normalize_request (req : Request) : Request :=
  {| h_Origin := absent_if_empty (h_Origin req);
     h_Referer := absent_if_empty (h_Referer req);
     h_UserAgent := absent_if_empty (h_UserAgent req);
     url_origin := url_origin req;
     q_email := absent_if_empty (q_email req);
     q_uuid := absent_if_empty (q_uuid req) |}.

Definition normalize_env (env : Env) : Env :=
  {| DISCORD_BOT_TOKEN := absent_if_empty (DISCORD_BOT_TOKEN env);
     DISCORD_CHANNEL_ID := absent_if_empty (DISCORD_CHANNEL_ID env);
     DISCORD_INVITES := DISCORD_INVITES env |}.

(** The environment with another cache binding. *)
Definition with_binding (env : Env) (KV : KVNamespace) : Env :=
  {| DISCORD_BOT_TOKEN := DISCORD_BOT_TOKEN env;
     DISCORD_CHANNEL_ID := DISCORD_CHANNEL_ID env;
     DISCORD_INVITES := Some KV |}.

(** The upstream call fails without an answer the handler can read: [fetch]
    throws, or the body of an error answer cannot be read as text, or the
    body of a success answer cannot be read as JSON. *)
Definition upstream_unreadable (w : World) : Prop :=
  discord w = Thrown
  \/ exists r, discord w = Returned r
               /\ ((ok r = false /\ fr_text r = Thrown)
                   \/ (ok r = true /\ fr_json r = Thrown)).

(** An entry as line 169 writes it: under the key of its own identifier,
    expiring 120,000 ms after its creation, with a TTL of 120 s. *)
Definition written_by_handler (key : string) (e : KvEntry) : Prop :=
  key = kvKey (uuid (value e))
  /\ expiresAt (value e) = createdAt (value e) + 120000
  /\ expirationTtl e = 120.

Definition consistent_store (m : Store) : Prop :=
  forall key e, m !! key = Some e -> written_by_handler key e.

(** A sequence of requests served one after the other, each with its own
    world and environment, the namespace passed along. *)
Fixpoint serve_all (l : list (World * Env * Request)) (m : Store) : Store :=
  match l with
  | [] => m
  | (w, env, req) :: l' => serve_all l' (kv_after (GET w env req m))
  end.

(** A referer on a host whose name begins with the site's. *)
Definition ex_req_lookalike : Request :=
  {| h_Origin := None;
     h_Referer := Some "https://strands.gg.evil.example/discord";
     h_UserAgent := Some "Mozilla/5.0 (X11; Linux x86_64) Firefox/128.0";
     url_origin := "https://strands.gg"; q_email := None;
     q_uuid := Some "c0ffee" |}.

(** A script that announces itself in capitals. *)
Definition ex_req_script : Request :=
  {| h_Origin := None; h_Referer := None;
     h_UserAgent := Some "My-PYTHON-Requests/2.31";
     url_origin := "https://strands.gg"; q_email := None;
     q_uuid := Some "c0ffee" |}.

(** A request with no header at all. *)
Definition ex_req_bare : Request :=
  {| h_Origin := None; h_Referer := None; h_UserAgent := None;
     url_origin := "https://strands.gg"; q_email := None;
     q_uuid := Some "c0ffee" |}.

(** The network is down. *)
Definition ex_world_offline : World :=
  {| Date_now := ex_t0; crypto_randomUUID := "9b2f6c1e"; discord := Thrown |}.

(** ** Basic facts *)

Lemma truthy_Some (s : string) : s <> "" -> truthy (Some s) = true.
Proof. destruct s; [congruence | reflexivity]. Qed.

Lemma truthy_inv (x : option string) :
  truthy x = true -> exists s, x = Some s /\ s <> "".
Proof.
  destruct x as [[|c s]|]; simpl; try discriminate.
  intros _. exists (String c s). split; [reflexivity | discriminate].
Qed.

Lemma reaches_core_inv env req :
  reaches_core env req = true ->
  cors_violation req = false /\ missing_configuration env = false
  /\ truthy (q_email req) = false /\ bot_user_agent req = false.
Proof.
  unfold reaches_core. rewrite !andb_true_iff, !negb_true_iff. tauto.
Qed.

Lemma GET_core w env req :
  reaches_core env req = true -> GET w env req = issue_or_reuse w env req.
Proof.
  intros H. apply reaches_core_inv in H as (Hc & Hm & He & Hb).
  unfold GET. rewrite Hc, Hm, He, Hb. reflexivity.
Qed.

Lemma GET_filtered w env req m :
  reaches_core env req = false ->
  kv_after (GET w env req m) = m /\ calls (GET w env req m) = [].
Proof.
  unfold reaches_core, GET. intros H.
  destruct (cors_violation req); [split; reflexivity |].
  destruct (missing_configuration env); [split; reflexivity |].
  destruct (truthy (q_email req)); [split; reflexivity |].
  destruct (bot_user_agent req); [split; reflexivity | discriminate].
Qed.

(** ** The cache consultation, case by case *)

Section Consult.
Variables (now : Z) (env : Env) (KV : KVNamespace) (id : string).
Hypothesis bound : DISCORD_INVITES env = Some KV.
Hypothesis supplied : id <> "".

Lemma consult_get_throws m :
  get_throws KV = true ->
  consult_cache now env (Some id) m
  = {| returned := None; kv_after := m; calls := [KvGet (kvKey id)] |}.
Proof.
  intros Hg. unfold consult_cache. rewrite (truthy_Some id supplied), bound.
  unfold KV_get, bind, emit, ret. cbn. rewrite Hg. reflexivity.
Qed.

Lemma consult_miss m :
  get_throws KV = false -> m !! kvKey id = None ->
  consult_cache now env (Some id) m
  = {| returned := None; kv_after := m; calls := [KvGet (kvKey id)] |}.
Proof.
  intros Hg Hm. unfold consult_cache. rewrite (truthy_Some id supplied), bound.
  unfold KV_get, bind, emit, ret, read_store. cbn. rewrite Hg. cbn.
  rewrite Hm. reflexivity.
Qed.

Lemma consult_hit m e :
  get_throws KV = false -> m !! kvKey id = Some e ->
  expiresAt (value e) - now > 10000 ->
  valid_time (expiresAt (value e)) = true ->
  consult_cache now env (Some id) m
  = {| returned :=
         Some {| status := 200;
                 body := InviteBody (uuid (value e)) (code (value e))
                           (expiresAt (value e)) true now |};
       kv_after := m; calls := [KvGet (kvKey id)] |}.
Proof.
  intros Hg Hm Hrem Hvalid. unfold consult_cache.
  rewrite (truthy_Some id supplied), bound.
  unfold KV_get, bind, emit, ret, read_store. cbn. rewrite Hg. cbn.
  rewrite Hm. cbn.
  replace (10000 <? expiresAt (value e) - now) with true
    by (symmetry; apply Z.ltb_lt; lia).
  rewrite Hvalid. reflexivity.
Qed.

Lemma consult_stale m e :
  get_throws KV = false -> m !! kvKey id = Some e ->
  expiresAt (value e) - now <= 10000 ->
  consult_cache now env (Some id) m
  = {| returned := None;
       kv_after := after_delete KV (kvKey id) m;
       calls := [KvGet (kvKey id); KvDelete (kvKey id)] |}.
Proof.
  intros Hg Hm Hrem. unfold consult_cache.
  rewrite (truthy_Some id supplied), bound.
  unfold KV_get, KV_delete, bind, emit, ret, read_store, modify_store.
  cbn. rewrite Hg. cbn. rewrite Hm. cbn.
  replace (10000 <? expiresAt (value e) - now) with false
    by (symmetry; apply Z.ltb_ge; lia).
  unfold after_delete. destruct (delete_throws KV); reflexivity.
Qed.
End Consult.

Lemma consult_not_supplied now env x m :
  truthy x = false ->
  consult_cache now env x m = {| returned := None; kv_after := m; calls := [] |}.
Proof.
  intros H. unfold consult_cache. rewrite H. reflexivity.
Qed.

Lemma consult_unbound now env x m :
  DISCORD_INVITES env = None ->
  consult_cache now env x m = {| returned := None; kv_after := m; calls := [] |}.
Proof.
  intros H. unfold consult_cache. rewrite H.
  destruct (truthy x); reflexivity.
Qed.

(** ** The issuing step, case by case *)

Lemma ttl_seconds now : (now + 120000 - now) / 1000 = 120.
Proof. replace (now + 120000 - now) with 120000 by lia. reflexivity. Qed.

Section Generate.
Variables (w : World) (env : Env) (id : string) (m : Store).

Lemma generate_network_error :
  discord w = Thrown ->
  generate_invite w (Date_now w) env id m
  = {| returned := json_error 500 "Internal server error" None;
       kv_after := m; calls := [fetch_call env] |}.
Proof.
  intros H. unfold generate_invite, fetch_invite, bind, emit, ret.
  cbn. rewrite H. reflexivity.
Qed.

Lemma generate_upstream_error r :
  discord w = Returned r -> ok r = false ->
  generate_invite w (Date_now w) env id m
  = {| returned :=
         match fr_text r with
         | Returned d =>
             if Response_accepts (fr_status r) then
               json_error (fr_status r) "Failed to generate invite" (Some d)
             else json_error 500 "Internal server error" None
         | Thrown => json_error 500 "Internal server error" None
         end;
       kv_after := m; calls := [fetch_call env] |}.
Proof.
  intros H Hok.
  unfold generate_invite, fetch_invite, bind, emit, ret.
  cbn. rewrite H, Hok. cbn.
  destruct (fr_text r); [destruct (Response_accepts (fr_status r)) |];
    reflexivity.
Qed.

Lemma generate_bad_json r :
  discord w = Returned r -> ok r = true -> fr_json r = Thrown ->
  generate_invite w (Date_now w) env id m
  = {| returned := json_error 500 "Internal server error" None;
       kv_after := m; calls := [fetch_call env] |}.
Proof.
  intros H Hok Hj.
  unfold generate_invite, fetch_invite, bind, emit, ret.
  cbn. rewrite H, Hok. cbn. rewrite Hj. reflexivity.
Qed.

Lemma generate_no_code r data_code :
  discord w = Returned r -> ok r = true ->
  fr_json r = Returned data_code -> truthy data_code = false ->
  generate_invite w (Date_now w) env id m
  = {| returned :=
         json_error 500 "Invalid response from Discord API" None;
       kv_after := m; calls := [fetch_call env] |}.
Proof.
  intros H Hok Hj Hc.
  unfold generate_invite, fetch_invite, bind, emit, ret.
  cbn. rewrite H, Hok. cbn. rewrite Hj, Hc. reflexivity.
Qed.

Lemma generate_issued c :
  upstream_issues w c ->
  generate_invite w (Date_now w) env id m
  = {| returned :=
         if valid_time (Date_now w + 120000) then
           {| status := 200;
              body := InviteBody id c (Date_now w + 120000) false
                        (Date_now w) |}
         else json_error 500 "Internal server error" None;
       kv_after := after_put env (kvKey id) (new_invite w id c) m;
       calls := fetch_call env :: put_call env (kvKey id) (new_invite w id c) |}.
Proof.
  intros (r & H & Hok & Hj & Hc).
  unfold generate_invite, fetch_invite, bind, emit, ret.
  change (120 * 1000) with 120000.
  cbn. rewrite H, Hok. cbn. rewrite Hj, (truthy_Some c Hc). cbn.
  unfold after_put, put_call, new_invite.
  destruct (DISCORD_INVITES env) as [KV|]; cbn.
  - rewrite ttl_seconds. unfold KV_put, bind, emit, ret, modify_store. cbn.
    destruct (put_throws KV); cbn;
      destruct (valid_time (Date_now w + 120000)); reflexivity.
  - destruct (valid_time (Date_now w + 120000)); reflexivity.
Qed.

(** Every answer of the upstream service falls under one of the five
    lemmas above. *)
Lemma upstream_cases :
  discord w = Thrown
  \/ (exists r, discord w = Returned r /\ ok r = false)
  \/ (exists r, discord w = Returned r /\ ok r = true /\ fr_json r = Thrown)
  \/ (exists r data_code, discord w = Returned r /\ ok r = true
        /\ fr_json r = Returned data_code /\ truthy data_code = false)
  \/ (exists c, upstream_issues w c).
Proof.
  destruct (discord w) as [r|] eqn:H; [| by left].
  right. destruct (ok r) eqn:Hok; [| left; eauto].
  right. destruct (fr_json r) as [dc|] eqn:Hj; [| left; eauto].
  right. destruct (truthy dc) eqn:Hc; [| left; eauto 6].
  right. apply truthy_inv in Hc as (c & -> & Hc).
  exists c, r. auto.
Qed.

End Generate.

(** ** The four ways a consultation ends *)

Lemma consult_invalid_date now env KV id m e :
  DISCORD_INVITES env = Some KV -> id <> "" ->
  get_throws KV = false -> m !! kvKey id = Some e ->
  expiresAt (value e) - now > 10000 ->
  valid_time (expiresAt (value e)) = false ->
  consult_cache now env (Some id) m
  = {| returned := None; kv_after := m; calls := [KvGet (kvKey id)] |}.
Proof.
  intros bound supplied Hg Hm Hrem Hvalid. unfold consult_cache.
  rewrite (truthy_Some id supplied), bound.
  unfold KV_get, bind, emit, ret, read_store. cbn. rewrite Hg. cbn.
  rewrite Hm. cbn.
  replace (10000 <? expiresAt (value e) - now) with true
    by (symmetry; apply Z.ltb_lt; lia).
  rewrite Hvalid. reflexivity.
Qed.

Lemma consult_cache_outcome now env x m :
  Consulted now env x m (consult_cache now env x m).
Proof.
  destruct (DISCORD_INVITES env) as [KV|] eqn:bound.
  2: { rewrite consult_unbound by assumption. constructor. by right. }
  destruct (truthy x) eqn:Hx.
  2: { rewrite consult_not_supplied by assumption. constructor. by left. }
  apply truthy_inv in Hx as (id & -> & supplied).
  destruct (get_throws KV) eqn:Hg.
  { rewrite (consult_get_throws now env KV id) by assumption.
    eapply consulted_nothing; eauto. }
  destruct (m !! kvKey id) as [e|] eqn:Hm.
  2: { rewrite (consult_miss now env KV id) by assumption.
       eapply consulted_nothing; eauto. }
  destruct (Z_lt_le_dec 10000 (expiresAt (value e) - now)) as [Hrem|Hrem].
  - destruct (valid_time (expiresAt (value e))) eqn:Hvalid.
    + rewrite (consult_hit now env KV id) with (e := e) by (assumption || lia).
      eapply consulted_hit; eauto; lia.
    + rewrite (consult_invalid_date now env KV id m e) by (assumption || lia).
      eapply consulted_nothing; eauto.
      right; right. exists e. repeat split; [assumption | lia | assumption].
  - rewrite (consult_stale now env KV id) with (e := e) by assumption.
    eapply consulted_stale; eauto.
Qed.

(** ** The lifecycle in terms of its two steps *)

Lemma lifecycle_served w env req m r :
  returned (consult_cache (Date_now w) env (q_uuid req) m) = Some r ->
  issue_or_reuse w env req m
  = {| returned := r;
       kv_after := kv_after (consult_cache (Date_now w) env (q_uuid req) m);
       calls := calls (consult_cache (Date_now w) env (q_uuid req) m) |}.
Proof.
  intros H. unfold issue_or_reuse, bind. rewrite H. cbn.
  by rewrite app_nil_r.
Qed.

Lemma lifecycle_issues w env req m :
  returned (consult_cache (Date_now w) env (q_uuid req) m) = None ->
  let c := consult_cache (Date_now w) env (q_uuid req) m in
  let g := generate_invite w (Date_now w) env (resolved_id w req) (kv_after c) in
  issue_or_reuse w env req m
  = {| returned := returned g; kv_after := kv_after g;
       calls := calls c ++ id_calls req ++ calls g |}.
Proof.
  intros H. unfold issue_or_reuse, bind, resolved_id, id_calls. rewrite H.
  destruct (truthy (q_uuid req)); reflexivity.
Qed.

(** A success answer of the issuing step comes from an issued code. *)
Lemma generate_200 w env id m u c e cached t :
  returned (generate_invite w (Date_now w) env id m)
  = {| status := 200; body := InviteBody u c e cached t |} ->
  upstream_issues w c /\ u = id /\ e = Date_now w + 120000 /\ cached = false
  /\ t = Date_now w /\ valid_time e = true
  /\ kv_after (generate_invite w (Date_now w) env id m)
     = after_put env (kvKey id) (new_invite w id c) m.
Proof.
  destruct (upstream_cases w) as [H | [(r & H & Hok) | [(r & H & Hok & Hj)
    | [(r & dc & H & Hok & Hj & Hc) | (c' & H)]]]].
  - rewrite (generate_network_error w env id m H). discriminate.
  - rewrite (generate_upstream_error w env id m r H Hok). cbn.
    destruct (fr_text r); [destruct (Response_accepts (fr_status r)) |];
      discriminate.
  - rewrite (generate_bad_json w env id m r H Hok Hj). discriminate.
  - rewrite (generate_no_code w env id m r dc H Hok Hj Hc). discriminate.
  - rewrite (generate_issued w env id m c' H). cbn.
    destruct (valid_time (Date_now w + 120000)) eqn:Hv; [| discriminate].
    intros [= ? ? ? ? ?]; subst. auto 10.
Qed.

Lemma after_put_lookup env KV key v m :
  DISCORD_INVITES env = Some KV -> put_throws KV = false ->
  after_put env key v m !! key = Some {| value := v; expirationTtl := 120 |}.
Proof.
  intros Hb Hp. unfold after_put. rewrite Hb, Hp. apply lookup_insert_eq.
Qed.

(** After a call that answered with an invite, and whose write (if any) went
    through, the namespace holds that invite under the caller's identifier. *)
Lemma answered_invite_is_stored w env req KV id m u c e cached t :
  reaches_core env req = true ->
  DISCORD_INVITES env = Some KV -> put_throws KV = false ->
  q_uuid req = Some id -> id <> "" ->
  returned (GET w env req m)
  = {| status := 200; body := InviteBody u c e cached t |} ->
  valid_time e = true
  /\ exists en, kv_after (GET w env req m) !! kvKey id = Some en
                /\ uuid (value en) = u /\ code (value en) = c
                /\ expiresAt (value en) = e.
Proof.
  intros Hcore Hb Hp Hq Hid. rewrite (GET_core w env req Hcore).
  assert (Hres : resolved_id w req = id).
  { unfold resolved_id. rewrite Hq, (truthy_Some id Hid). reflexivity. }
  pose proof (consult_cache_outcome (Date_now w) env (q_uuid req) m) as Hc.
  inversion Hc as [Hs Heq | KV' id' Hx Hid' Hb' Hwhy Heq
                  | KV' id' e' Hx Hid' Hb' Hg Hm Hrem Hv Heq
                  | KV' id' e' Hx Hid' Hb' Hg Hm Hrem Heq].
  - destruct Hs as [Hs | Hs]; [| congruence].
    rewrite Hq, (truthy_Some id Hid) in Hs. discriminate.
  - rewrite lifecycle_issues by (rewrite <- Heq; reflexivity).
    cbn [returned kv_after calls]. rewrite <- Heq.
    cbn [returned kv_after calls]. rewrite Hres. intros Hret.
    apply generate_200 in Hret as (_ & -> & -> & _ & _ & Hv & Hkv).
    rewrite Hkv.
    split; [assumption |]. eexists. split.
    + apply (after_put_lookup env KV); assumption.
    + auto.
  - rewrite Hq in Hx. injection Hx as <-.
    rewrite lifecycle_served with (r := cached_response (Date_now w) (value e'))
      by (rewrite <- Heq; reflexivity).
    cbn [returned kv_after calls]. rewrite <- Heq.
    cbn [returned kv_after calls]. unfold cached_response.
    intros [= ? ? ? ? ?]; subst.
    split; [assumption |]. exists e'. auto.
  - rewrite lifecycle_issues by (rewrite <- Heq; reflexivity).
    cbn [returned kv_after calls]. rewrite <- Heq.
    cbn [returned kv_after calls]. rewrite Hres. intros Hret.
    apply generate_200 in Hret as (_ & -> & -> & _ & _ & Hv & Hkv).
    rewrite Hkv.
    split; [assumption |]. eexists. split.
    + apply (after_put_lookup env KV); assumption.
    + auto.
Qed.

Lemma cached_invite_served w env req KV id e m :
  reaches_core env req = true ->
  DISCORD_INVITES env = Some KV -> get_throws KV = false ->
  q_uuid req = Some id -> id <> "" ->
  m !! kvKey id = Some e ->
  expiresAt (value e) - Date_now w > 10000 ->
  valid_time (expiresAt (value e)) = true ->
  GET w env req m
  = {| returned := cached_response (Date_now w) (value e);
       kv_after := m; calls := [KvGet (kvKey id)] |}.
Proof.
  intros Hcore Hb Hg Hq Hid Hm Hrem Hv. rewrite (GET_core w env req Hcore).
  pose proof (consult_hit (Date_now w) env KV id Hb Hid m e Hg Hm Hrem Hv) as Hc.
  rewrite lifecycle_served with (r := cached_response (Date_now w) (value e))
    by (rewrite Hq, Hc; reflexivity).
  rewrite Hq, Hc. reflexivity.
Qed.

Lemma ex_world_issues t c : c <> "" -> upstream_issues (ex_world t c) c.
Proof. intros Hc. eexists. repeat split; first [reflexivity | assumption]. Qed.

(** ** Reuse of a valid cached invite *)

(** C1.  A request that passes the filters and supplies an identifier under
    which the namespace holds a record with more than 10,000 ms left is
    answered with that record's code and expiry, marked [cached], after a
    single cache read and no call to Discord; the namespace is left as it
    was.  Hence, once a call with an identifier has answered with an invite
    (served or freshly issued and stored), a later call with the same
    identifier made while more than 10,000 ms of that invite remain answers
    with the same code and expiry. *)
Theorem valid_cached_invite_is_reused :
  (forall w env req KV id e m,
      reaches_core env req = true ->
      DISCORD_INVITES env = Some KV -> get_throws KV = false ->
      q_uuid req = Some id -> id <> "" ->
      m !! kvKey id = Some e ->
      expiresAt (value e) - Date_now w > 10000 ->
      valid_time (expiresAt (value e)) = true ->
      GET w env req m
      = {| returned :=
             {| status := 200;
                body := InviteBody (uuid (value e)) (code (value e))
                          (expiresAt (value e)) true (Date_now w) |};
           kv_after := m; calls := [KvGet (kvKey id)] |})
  /\ (forall w1 w2 env req1 req2 KV id m u c e cached t,
         reaches_core env req1 = true -> reaches_core env req2 = true ->
         DISCORD_INVITES env = Some KV ->
         get_throws KV = false -> put_throws KV = false ->
         q_uuid req1 = Some id -> q_uuid req2 = Some id -> id <> "" ->
         returned (GET w1 env req1 m)
         = {| status := 200; body := InviteBody u c e cached t |} ->
         e - Date_now w2 > 10000 ->
         GET w2 env req2 (kv_after (GET w1 env req1 m))
         = {| returned :=
                {| status := 200;
                   body := InviteBody u c e true (Date_now w2) |};
              kv_after := kv_after (GET w1 env req1 m);
              calls := [KvGet (kvKey id)] |}).
Proof.
  split.
  - intros. by eapply cached_invite_served.
  - intros w1 w2 env req1 req2 KV id m u c e cached t
           Hc1 Hc2 Hb Hg Hp Hq1 Hq2 Hid Hret Hrem.
    destruct (answered_invite_is_stored w1 env req1 KV id m u c e cached t)
      as (Hv & en & Hen & <- & <- & <-); try assumption.
    by eapply cached_invite_served.
Qed.

Lemma valid_cached_invite_is_reused_witness :
  GET (ex_world (ex_t0 + 60000) "zZ9") ex_env ex_req ex_store
  = {| returned :=
         {| status := 200;
            body := InviteBody "c0ffee" "aBcD1234" (ex_t0 + 120000) true
                      (ex_t0 + 60000) |};
       kv_after := ex_store; calls := [KvGet (kvKey "c0ffee")] |}
  /\ GET (ex_world (ex_t0 + 109999) "zZ9") ex_env ex_req
         (kv_after (GET (ex_world ex_t0 "aBcD1234") ex_env ex_req ∅))
     = {| returned :=
            {| status := 200;
               body := InviteBody "c0ffee" "aBcD1234" (ex_t0 + 120000) true
                         (ex_t0 + 109999) |};
          kv_after := kv_after (GET (ex_world ex_t0 "aBcD1234") ex_env ex_req ∅);
          calls := [KvGet (kvKey "c0ffee")] |}.
Proof.
  split.
  - apply (proj1 valid_cached_invite_is_reused
             (ex_world (ex_t0 + 60000) "zZ9") ex_env ex_req ex_kv "c0ffee"
             {| value := ex_record; expirationTtl := 120 |} ex_store);
      first [reflexivity | discriminate | vm_compute; reflexivity].
  - apply (proj2 valid_cached_invite_is_reused
             (ex_world ex_t0 "aBcD1234") (ex_world (ex_t0 + 109999) "zZ9")
             ex_env ex_req ex_req ex_kv "c0ffee" ∅ "c0ffee" "aBcD1234"
             (ex_t0 + 120000) false ex_t0);
      first [reflexivity | discriminate | vm_compute; reflexivity].
Defined.

(** ** Issuance after the consultation *)

Lemma lifecycle_issued w env req m c :
  returned (consult_cache (Date_now w) env (q_uuid req) m) = None ->
  upstream_issues w c ->
  valid_time (Date_now w + 120000) = true ->
  issue_or_reuse w env req m
  = {| returned := issued_response w (resolved_id w req) c;
       kv_after :=
         after_put env (kvKey (resolved_id w req))
           (new_invite w (resolved_id w req) c)
           (kv_after (consult_cache (Date_now w) env (q_uuid req) m));
       calls :=
         calls (consult_cache (Date_now w) env (q_uuid req) m)
         ++ id_calls req
         ++ fetch_call env
            :: put_call env (kvKey (resolved_id w req))
                 (new_invite w (resolved_id w req) c) |}.
Proof.
  intros Hnone Hup Hv. rewrite (lifecycle_issues w env req m Hnone).
  cbv zeta. rewrite (generate_issued w env _ _ c Hup), Hv. reflexivity.
Qed.

Lemma resolved_supplied w req id :
  q_uuid req = Some id -> id <> "" ->
  resolved_id w req = id /\ id_calls req = [].
Proof.
  intros Hq Hid. unfold resolved_id, id_calls.
  rewrite Hq, (truthy_Some id Hid). auto.
Qed.

(** ** Replacement of a stale cached invite *)

(** C2, as stated, fails: the handler asks Discord for a unique invite but
    never compares the code it gets with the stale one.  With a stale record
    holding "aBcD1234" (exactly 10,000 ms left) and Discord answering
    "aBcD1234", the entry is deleted, Discord is called, and the fresh
    answer carries that same code. *)
Lemma stale_code_counterexample :
  ex_store !! kvKey "c0ffee"
  = Some {| value := ex_record; expirationTtl := 120 |}
  /\ code ex_record = "aBcD1234"
  /\ expiresAt ex_record - (ex_t0 + 110000) = 10000
  /\ calls (GET (ex_world (ex_t0 + 110000) "aBcD1234") ex_env ex_req ex_store)
     = [KvGet (kvKey "c0ffee"); KvDelete (kvKey "c0ffee"); fetch_call ex_env;
        KvPut (kvKey "c0ffee")
          (new_invite (ex_world (ex_t0 + 110000) "aBcD1234") "c0ffee"
             "aBcD1234") 120]
  /\ returned (GET (ex_world (ex_t0 + 110000) "aBcD1234") ex_env ex_req
                 ex_store)
     = {| status := 200;
          body := InviteBody "c0ffee" "aBcD1234" (ex_t0 + 230000) false
                    (ex_t0 + 110000) |}.
Proof. repeat split; vm_compute; reflexivity. Qed.

(** C2, amended.  A request that passes the filters and supplies an
    identifier under which the namespace holds a record with at most 10,000
    ms left makes the handler call [KV.delete] on that entry and then call
    Discord, whatever Discord answers.  When Discord issues a code, the
    handler stores and returns a record with that code (the one Discord
    returned for this call, which the handler does not compare with the
    stale one) and with expiry now + 120,000 ms, strictly later than the
    stale expiry.  The stale entry is gone from the namespace as soon as the
    delete or the write goes through. *)
Theorem stale_cached_invite_is_replaced w env req KV id e m :
  reaches_core env req = true ->
  DISCORD_INVITES env = Some KV -> get_throws KV = false ->
  q_uuid req = Some id -> id <> "" ->
  m !! kvKey id = Some e ->
  expiresAt (value e) - Date_now w <= 10000 ->
  (exists rest,
      calls (GET w env req m)
      = KvGet (kvKey id) :: KvDelete (kvKey id) :: fetch_call env :: rest)
  /\ (delete_throws KV = false -> after_delete KV (kvKey id) m !! kvKey id = None)
  /\ Date_now w + 120000 > expiresAt (value e)
  /\ forall c,
       upstream_issues w c ->
       valid_time (Date_now w + 120000) = true ->
       calls (GET w env req m)
       = [KvGet (kvKey id); KvDelete (kvKey id); fetch_call env;
          KvPut (kvKey id) (new_invite w id c) 120]
       /\ returned (GET w env req m)
          = {| status := 200;
               body := InviteBody id c (Date_now w + 120000) false
                         (Date_now w) |}
       /\ kv_after (GET w env req m)
          = after_put env (kvKey id) (new_invite w id c)
              (after_delete KV (kvKey id) m)
       /\ (delete_throws KV = false \/ put_throws KV = false ->
           kv_after (GET w env req m) !! kvKey id <> Some e).
Proof.
  intros Hcore Hb Hg Hq Hid Hm Hrem.
  rewrite (GET_core w env req Hcore).
  pose proof (consult_stale (Date_now w) env KV id Hb Hid m e Hg Hm Hrem) as Hc.
  destruct (resolved_supplied w req id Hq Hid) as [Hres Hidc].
  split; [| split; [| split; [lia |]]].
  - rewrite lifecycle_issues by (rewrite Hq, Hc; reflexivity).
    cbv zeta. cbn [calls]. rewrite Hq, Hc, Hres, Hidc. cbn [calls kv_after].
    destruct (upstream_cases w) as [H | [(r & H & Hok) | [(r & H & Hok & Hj)
      | [(r & dc & H & Hok & Hj & Hdc) | (c & H)]]]].
    + rewrite (generate_network_error w env id _ H). eauto.
    + rewrite (generate_upstream_error w env id _ r H Hok). eauto.
    + rewrite (generate_bad_json w env id _ r H Hok Hj). eauto.
    + rewrite (generate_no_code w env id _ r dc H Hok Hj Hdc). eauto.
    + rewrite (generate_issued w env id _ c H). eauto.
  - unfold after_delete. intros ->. apply lookup_delete_eq.
  - intros c Hup Hv.
    rewrite (lifecycle_issued w env req m c) by (rewrite ?Hq, ?Hc; done).
    rewrite Hq, Hc, Hres, Hidc. cbn [returned kv_after calls].
    unfold put_call, after_put, after_delete. rewrite Hb.
    repeat split; try done.
    intros Hor Hlook.
    destruct (put_throws KV) eqn:Hp.
    + destruct Hor as [Hd | ?]; [| discriminate]. rewrite Hd in Hlook.
      by rewrite lookup_delete_eq in Hlook.
    + rewrite lookup_insert_eq in Hlook. injection Hlook as <-.
      cbn [value new_invite expiresAt] in Hrem. lia.
Qed.

Lemma stale_cached_invite_is_replaced_witness :
  calls (GET (ex_world (ex_t0 + 110000) "zZ9") ex_env ex_req ex_store)
  = [KvGet (kvKey "c0ffee"); KvDelete (kvKey "c0ffee"); fetch_call ex_env;
     KvPut (kvKey "c0ffee")
       (new_invite (ex_world (ex_t0 + 110000) "zZ9") "c0ffee" "zZ9") 120]
  /\ returned (GET (ex_world (ex_t0 + 110000) "zZ9") ex_env ex_req ex_store)
     = {| status := 200;
          body := InviteBody "c0ffee" "zZ9" (ex_t0 + 110000 + 120000) false
                    (ex_t0 + 110000) |}.
Proof.
  destruct (stale_cached_invite_is_replaced
              (ex_world (ex_t0 + 110000) "zZ9") ex_env ex_req ex_kv "c0ffee"
              {| value := ex_record; expirationTtl := 120 |} ex_store)
    as (_ & _ & _ & Hissued).
  - reflexivity.
  - reflexivity.
  - reflexivity.
  - reflexivity.
  - discriminate.
  - reflexivity.
  - vm_compute. discriminate.
  - destruct (Hissued "zZ9") as (Hcalls & Hret & _).
    + apply ex_world_issues. discriminate.
    + reflexivity.
    + split; assumption.
Defined.

(** ** What a run can call *)

Lemma generate_calls_shape w env id m :
  calls (generate_invite w (Date_now w) env id m) = [fetch_call env]
  \/ exists c, upstream_issues w c
               /\ calls (generate_invite w (Date_now w) env id m)
                  = fetch_call env :: put_call env (kvKey id) (new_invite w id c).
Proof.
  destruct (upstream_cases w) as [H | [(r & H & Hok) | [(r & H & Hok & Hj)
    | [(r & dc & H & Hok & Hj & Hc) | (c & H)]]]].
  - rewrite (generate_network_error w env id m H). by left.
  - rewrite (generate_upstream_error w env id m r H Hok). by left.
  - rewrite (generate_bad_json w env id m r H Hok Hj). by left.
  - rewrite (generate_no_code w env id m r dc H Hok Hj Hc). by left.
  - rewrite (generate_issued w env id m c H). right. eauto.
Qed.

Lemma put_call_elem env key v e :
  e ∈ put_call env key v -> e = KvPut key v 120.
Proof.
  unfold put_call. destruct (DISCORD_INVITES env).
  - by intros ->%list_elem_of_singleton.
  - by intros ?%elem_of_nil.
Qed.

Lemma generate_calls_elem w env id m e :
  e ∈ calls (generate_invite w (Date_now w) env id m) ->
  e = fetch_call env
  \/ exists c, upstream_issues w c /\ e = KvPut (kvKey id) (new_invite w id c) 120.
Proof.
  destruct (generate_calls_shape w env id m) as [-> | (c & Hup & ->)].
  - intros ->%list_elem_of_singleton. by left.
  - intros [-> | He%put_call_elem]%elem_of_cons; [by left | right; eauto].
Qed.

Lemma id_calls_elem req e : e ∈ id_calls req -> e = RandomUUID.
Proof.
  unfold id_calls. destruct (truthy (q_uuid req)).
  - by intros ?%elem_of_nil.
  - by intros ->%list_elem_of_singleton.
Qed.

(** The calls of the consultation concern the key of a supplied identifier. *)
Lemma consult_calls_elem now env x m e :
  e ∈ calls (consult_cache now env x m) ->
  exists id, x = Some id /\ id <> ""
             /\ (e = KvGet (kvKey id) \/ e = KvDelete (kvKey id)).
Proof.
  pose proof (consult_cache_outcome now env x m) as Hc.
  inversion Hc as [Hs Heq | KV id Hx Hid Hb Hwhy Heq
                  | KV id e' Hx Hid Hb Hg Hm Hrem Hv Heq
                  | KV id e' Hx Hid Hb Hg Hm Hrem Heq];
    cbn [calls]; rewrite ?elem_of_cons, elem_of_nil.
  - done.
  - intros [-> | []]. eauto.
  - intros [-> | []]. eauto.
  - intros [-> | [-> | []]]; eauto.
Qed.

Lemma lifecycle_calls w env req m :
  calls (issue_or_reuse w env req m)
  = calls (consult_cache (Date_now w) env (q_uuid req) m)
    ++ match returned (consult_cache (Date_now w) env (q_uuid req) m) with
       | Some _ => []
       | None =>
           id_calls req
           ++ calls (generate_invite w (Date_now w) env (resolved_id w req)
                       (kv_after (consult_cache (Date_now w) env (q_uuid req) m)))
       end.
Proof.
  destruct (returned (consult_cache (Date_now w) env (q_uuid req) m)) eqn:H.
  - rewrite (lifecycle_served w env req m r H). cbn [calls].
    by rewrite app_nil_r.
  - by rewrite (lifecycle_issues w env req m H).
Qed.

(** Every call of a run is one of: the read or delete of the supplied
    identifier's key, the draw of a fresh identifier, the upstream call, the
    write of a newly issued invite under the resolved identifier. *)
Lemma GET_calls_elem w env req m e :
  e ∈ calls (GET w env req m) ->
  (exists id, q_uuid req = Some id /\ id <> ""
              /\ (e = KvGet (kvKey id) \/ e = KvDelete (kvKey id)))
  \/ (e = RandomUUID /\ truthy (q_uuid req) = false)
  \/ e = fetch_call env
  \/ exists c, upstream_issues w c
               /\ e = KvPut (kvKey (resolved_id w req))
                        (new_invite w (resolved_id w req) c) 120.
Proof.
  destruct (reaches_core env req) eqn:Hcore.
  2: { destruct (GET_filtered w env req m Hcore) as [_ ->].
       by intros ?%elem_of_nil. }
  rewrite (GET_core w env req Hcore), lifecycle_calls.
  intros [He | He]%elem_of_app.
  - left. by eapply consult_calls_elem.
  - right. destruct (returned _); [by apply elem_of_nil in He |].
    apply elem_of_app in He as [He | He].
    + left. split; [by eapply id_calls_elem |].
      unfold id_calls in He. destruct (truthy (q_uuid req)); [| done].
      by apply elem_of_nil in He.
    + right. by eapply generate_calls_elem.
Qed.

(** ** Requests without an identifier *)

(** C3.  A request that passes the filters and supplies no identifier makes
    the handler draw a fresh identifier and go straight to issuance: its run
    is that of the issuing step under the drawn identifier, preceded by the
    draw alone, and contains no cache read.  In any run, a cache read is for
    the key of an identifier the caller supplied. *)
Theorem cache_is_read_only_for_supplied_identifier :
  (forall w env req m,
      reaches_core env req = true -> truthy (q_uuid req) = false ->
      let g := generate_invite w (Date_now w) env (crypto_randomUUID w) m in
      GET w env req m
      = {| returned := returned g; kv_after := kv_after g;
           calls := RandomUUID :: calls g |}
      /\ (exists rest, calls g = fetch_call env :: rest)
      /\ forall e, e ∈ calls (GET w env req m) -> is_kv_read e = false)
  /\ (forall w env req m key,
         KvGet key ∈ calls (GET w env req m) ->
         exists id, q_uuid req = Some id /\ id <> "" /\ key = kvKey id).
Proof.
  split.
  - intros w env req m Hcore Hno g.
    assert (Hrun : GET w env req m
                   = {| returned := returned g; kv_after := kv_after g;
                        calls := RandomUUID :: calls g |}).
    { rewrite (GET_core w env req Hcore).
      pose proof (consult_not_supplied (Date_now w) env (q_uuid req) m Hno) as Hc.
      rewrite lifecycle_issues by (rewrite Hc; reflexivity).
      rewrite Hc. unfold resolved_id, id_calls. rewrite Hno. reflexivity. }
    split; [exact Hrun |]. split.
    + subst g. destruct (generate_calls_shape w env (crypto_randomUUID w) m)
        as [-> | (c & _ & ->)]; eauto.
    + rewrite Hrun. cbn [calls]. intros e [-> | He]%elem_of_cons; [done |].
      subst g. apply generate_calls_elem in He as [-> | (c & _ & ->)]; done.
  - intros w env req m key Hin.
    apply GET_calls_elem in Hin
      as [(id & Hq & Hid & [He | He]) | [[He _] | [He | (c & _ & He)]]];
      try discriminate He.
    injection He as ->. eauto.
Qed.

Lemma cache_is_read_only_for_supplied_identifier_witness :
  GET (ex_world ex_t0 "zZ9") ex_env ex_req_anonymous ex_store
  = {| returned := issued_response (ex_world ex_t0 "zZ9") "9b2f6c1e" "zZ9";
       kv_after :=
         <[kvKey "9b2f6c1e" :=
             {| value := new_invite (ex_world ex_t0 "zZ9") "9b2f6c1e" "zZ9";
                expirationTtl := 120 |}]> ex_store;
       calls :=
         [RandomUUID; fetch_call ex_env;
          KvPut (kvKey "9b2f6c1e")
            (new_invite (ex_world ex_t0 "zZ9") "9b2f6c1e" "zZ9") 120] |}.
Proof.
  destruct (proj1 cache_is_read_only_for_supplied_identifier
              (ex_world ex_t0 "zZ9") ex_env ex_req_anonymous ex_store)
    as (Hrun & _).
  - reflexivity.
  - reflexivity.
  - rewrite Hrun. reflexivity.
Defined.

(** ** Failed issuance *)

(** The consultation changes the namespace by the stale-entry delete only. *)
Lemma consult_store now env x m :
  kv_after (consult_cache now env x m) = m
  \/ exists KV id e,
       DISCORD_INVITES env = Some KV /\ x = Some id /\ id <> ""
       /\ m !! kvKey id = Some e /\ expiresAt (value e) - now <= 10000
       /\ kv_after (consult_cache now env x m) = after_delete KV (kvKey id) m.
Proof.
  pose proof (consult_cache_outcome now env x m) as Hc.
  inversion Hc as [Hs Heq | KV id Hx Hid Hb Hwhy Heq
                  | KV id e' Hx Hid Hb Hg Hm Hrem Hv Heq
                  | KV id e' Hx Hid Hb Hg Hm Hrem Heq];
    cbn [kv_after]; try by left.
  right. exists KV, id, e'. auto 10.
Qed.

Lemma failed_issue_leaves_cache w env req m resp :
  fetch_call env ∈ calls (GET w env req m) ->
  (forall s, generate_invite w (Date_now w) env (resolved_id w req) s
             = {| returned := resp; kv_after := s; calls := [fetch_call env] |}) ->
  returned (GET w env req m) = resp
  /\ (forall e, e ∈ calls (GET w env req m) -> is_kv_write e = false)
  /\ unchanged_but_stale_delete env req (Date_now w) m (kv_after (GET w env req m)).
Proof.
  intros Hin Hgen.
  destruct (reaches_core env req) eqn:Hcore.
  2: { destruct (GET_filtered w env req m Hcore) as [_ Hnil].
       rewrite Hnil in Hin. by apply elem_of_nil in Hin. }
  rewrite (GET_core w env req Hcore) in *.
  destruct (returned (consult_cache (Date_now w) env (q_uuid req) m)) eqn:Hret.
  - rewrite (lifecycle_served w env req m r Hret) in Hin. cbn [calls] in Hin.
    apply consult_calls_elem in Hin as (id & _ & _ & [He | He]);
      discriminate He.
  - rewrite (lifecycle_issues w env req m Hret). cbv zeta. rewrite Hgen.
    cbn [returned kv_after calls]. split; [reflexivity |]. split.
    + intros e [He | [He | He]%elem_of_app]%elem_of_app.
      * apply consult_calls_elem in He as (id & _ & _ & [-> | ->]); done.
      * apply id_calls_elem in He as ->. done.
      * apply list_elem_of_singleton in He as ->. done.
    + apply consult_store.
Qed.

Lemma Response_accepts_error r :
  ok r = false ->
  Response_accepts (fr_status r) = true
  <-> 300 <= fr_status r <= 599 /\ fr_status r <> 304.
Proof.
  unfold ok, Response_accepts, null_body_status.
  destruct (Z.leb_spec 200 (fr_status r)), (Z.leb_spec (fr_status r) 299),
    (Z.leb_spec (fr_status r) 599), (Z.eqb_spec (fr_status r) 101),
    (Z.eqb_spec (fr_status r) 103), (Z.eqb_spec (fr_status r) 204),
    (Z.eqb_spec (fr_status r) 205), (Z.eqb_spec (fr_status r) 304);
    cbn; intros Hok; split; intros Hacc; try discriminate; try lia;
    reflexivity.
Qed.

(** C4, as stated, fails: when Discord answers 502 and the body cannot be
    read, [response.text()] rejects inside the [try] of line 117 and the
    catch of line 188 answers 500 without details, not 502. *)
Lemma upstream_status_counterexample :
  discord ex_world_bad_gateway
  = Returned {| fr_status := 502; fr_text := Thrown; fr_json := Thrown |}
  /\ fetch_call ex_env
     ∈ calls (GET ex_world_bad_gateway ex_env ex_req_anonymous ex_store)
  /\ returned (GET ex_world_bad_gateway ex_env ex_req_anonymous ex_store)
     = {| status := 500; body := ErrorBody "Internal server error" None |}.
Proof.
  split; [reflexivity |]. split; [| reflexivity].
  vm_compute. apply list_elem_of_further, list_elem_of_here.
Qed.

(** The same happens when the body can be read but the status is one a
    response with a body cannot carry, such as 304: the constructor of line
    140 throws. *)
Example upstream_304_is_answered_500 :
  returned (GET ex_world_not_modified ex_env ex_req_anonymous ex_store)
  = {| status := 500; body := ErrorBody "Internal server error" None |}.
Proof. reflexivity. Qed.

(** C4, amended.  When the handler has called Discord and Discord answers
    with a status outside 200-299, no cache write is made and the namespace
    is as found, up to the earlier delete of a stale entry.  The answer
    carries the upstream status and the text [d] of the upstream body when
    that body can be read and the status is one a response with a body can
    carry, which for a status outside 200-299 means 300-599 other than 304;
    otherwise it is the 500 "Internal server error" without details. *)
Theorem upstream_error_is_passed_through w env req m r :
  fetch_call env ∈ calls (GET w env req m) ->
  discord w = Returned r -> ok r = false ->
  (forall e, e ∈ calls (GET w env req m) -> is_kv_write e = false)
  /\ unchanged_but_stale_delete env req (Date_now w) m (kv_after (GET w env req m))
  /\ returned (GET w env req m)
     = match fr_text r with
       | Returned d =>
           if Response_accepts (fr_status r) then
             {| status := fr_status r;
                body := ErrorBody "Failed to generate invite" (Some d) |}
           else
             {| status := 500; body := ErrorBody "Internal server error" None |}
       | Thrown =>
           {| status := 500; body := ErrorBody "Internal server error" None |}
       end
  /\ (Response_accepts (fr_status r) = true
      <-> 300 <= fr_status r <= 599 /\ fr_status r <> 304).
Proof.
  intros Hin H Hok.
  edestruct (failed_issue_leaves_cache w env req m) as (Hret & Hw & Hs);
    [exact Hin | intros s; by apply generate_upstream_error |].
  split; [exact Hw |]. split; [exact Hs |].
  split; [exact Hret | by apply Response_accepts_error].
Qed.

Lemma upstream_error_is_passed_through_witness :
  returned (GET ex_world_refused ex_env ex_req ex_store)
  = {| status := 429;
       body := ErrorBody "Failed to generate invite" (Some "rate limited") |}
  /\ kv_after (GET ex_world_refused ex_env ex_req ex_store) !! kvKey "c0ffee"
     = None.
Proof.
  destruct (upstream_error_is_passed_through ex_world_refused ex_env ex_req
              ex_store
              {| fr_status := 429; fr_text := Returned "rate limited";
                 fr_json := Thrown |})
    as (_ & _ & Hret & _).
  - vm_compute. apply list_elem_of_further, list_elem_of_further,
      list_elem_of_here.
  - reflexivity.
  - reflexivity.
  - split; [exact Hret | vm_compute; reflexivity].
Defined.

(** C5.  When the handler has called Discord and the success answer has no
    code (the field is missing or empty), the handler answers 500 and makes
    no cache write; the namespace is as found, up to the earlier delete of a
    stale entry. *)
Theorem missing_code_is_a_500 w env req m r data_code :
  fetch_call env ∈ calls (GET w env req m) ->
  discord w = Returned r -> ok r = true ->
  fr_json r = Returned data_code -> truthy data_code = false ->
  returned (GET w env req m)
  = {| status := 500;
       body := ErrorBody "Invalid response from Discord API" None |}
  /\ (forall e, e ∈ calls (GET w env req m) -> is_kv_write e = false)
  /\ unchanged_but_stale_delete env req (Date_now w) m
       (kv_after (GET w env req m)).
Proof.
  intros Hin H Hok Hj Hc.
  apply failed_issue_leaves_cache; [exact Hin |].
  intros s. by eapply generate_no_code.
Qed.

Lemma missing_code_is_a_500_witness :
  returned (GET ex_world_no_code ex_env ex_req_anonymous ex_store)
  = {| status := 500;
       body := ErrorBody "Invalid response from Discord API" None |}
  /\ kv_after (GET ex_world_no_code ex_env ex_req_anonymous ex_store)
     = ex_store.
Proof.
  destruct (missing_code_is_a_500 ex_world_no_code ex_env ex_req_anonymous
              ex_store
              {| fr_status := 200; fr_text := Returned "{}";
                 fr_json := Returned None |} None)
    as (Hret & _ & _).
  - vm_compute. apply list_elem_of_further, list_elem_of_here.
  - reflexivity.
  - reflexivity.
  - reflexivity.
  - reflexivity.
  - split; [exact Hret | reflexivity].
Defined.

(** ** Answers of the lifecycle *)

Lemma generate_error w env id m msg :
  error_of (returned (generate_invite w (Date_now w) env id m)) = Some msg ->
  msg ∈ lifecycle_errors.
Proof.
  unfold lifecycle_errors.
  destruct (upstream_cases w) as [H | [(r & H & Hok) | [(r & H & Hok & Hj)
    | [(r & dc & H & Hok & Hj & Hc) | (c & H)]]]].
  - rewrite (generate_network_error w env id m H). intros [= <-]. set_solver.
  - rewrite (generate_upstream_error w env id m r H Hok). cbn [returned].
    destruct (fr_text r); [destruct (Response_accepts (fr_status r)) |];
      intros [= <-]; set_solver.
  - rewrite (generate_bad_json w env id m r H Hok Hj). intros [= <-]. set_solver.
  - rewrite (generate_no_code w env id m r dc H Hok Hj Hc). intros [= <-].
    set_solver.
  - rewrite (generate_issued w env id m c H). cbn [returned].
    destruct (valid_time _); [discriminate |]. intros [= <-]. set_solver.
Qed.

Lemma lifecycle_error w env req m msg :
  error_of (returned (issue_or_reuse w env req m)) = Some msg ->
  msg ∈ lifecycle_errors.
Proof.
  destruct (returned (consult_cache (Date_now w) env (q_uuid req) m)) eqn:Hret.
  - rewrite (lifecycle_served w env req m r Hret). cbn [returned].
    pose proof (consult_cache_outcome (Date_now w) env (q_uuid req) m) as Hc.
    inversion Hc as [Hs Heq | KV id Hx Hid Hb Hwhy Heq
                    | KV id e' Hx Hid Hb Hg Hm Hrem Hv Heq
                    | KV id e' Hx Hid Hb Hg Hm Hrem Heq];
      rewrite <- Heq in Hret; cbn [returned] in Hret; try discriminate Hret.
    injection Hret as <-. discriminate.
  - rewrite (lifecycle_issues w env req m Hret). cbn [returned].
    apply generate_error.
Qed.

(** What the issuing step answers depends on neither the binding nor the
    contents of the namespace. *)
Lemma generate_returned_indep w env env' id m m' :
  returned (generate_invite w (Date_now w) env id m)
  = returned (generate_invite w (Date_now w) env' id m').
Proof.
  destruct (upstream_cases w) as [H | [(r & H & Hok) | [(r & H & Hok & Hj)
    | [(r & dc & H & Hok & Hj & Hc) | (c & H)]]]].
  - by rewrite !(generate_network_error w _ id _ H).
  - by rewrite !(generate_upstream_error w _ id _ r H Hok).
  - by rewrite !(generate_bad_json w _ id _ r H Hok Hj).
  - by rewrite !(generate_no_code w _ id _ r dc H Hok Hj Hc).
  - by rewrite !(generate_issued w _ id _ c H).
Qed.

Lemma unbound_run w env req m :
  reaches_core env req = true -> DISCORD_INVITES env = None ->
  GET w env req m
  = {| returned :=
         returned (generate_invite w (Date_now w) env (resolved_id w req) m);
       kv_after :=
         kv_after (generate_invite w (Date_now w) env (resolved_id w req) m);
       calls :=
         id_calls req
         ++ calls (generate_invite w (Date_now w) env (resolved_id w req) m) |}.
Proof.
  intros Hcore Hnone. rewrite (GET_core w env req Hcore).
  pose proof (consult_unbound (Date_now w) env (q_uuid req) m Hnone) as Hc.
  rewrite lifecycle_issues by (rewrite Hc; reflexivity).
  rewrite Hc. reflexivity.
Qed.

(** A consultation whose read throws returns nothing and changes nothing. *)
Lemma consult_down now env KV x m :
  DISCORD_INVITES env = Some KV -> get_throws KV = true ->
  returned (consult_cache now env x m) = None
  /\ kv_after (consult_cache now env x m) = m
  /\ forall e, e ∈ calls (consult_cache now env x m) -> is_kv_read e = true.
Proof.
  intros Hb Hg. destruct (truthy x) eqn:Hx.
  - apply truthy_inv in Hx as (id & -> & Hid).
    rewrite (consult_get_throws now env KV id Hb Hid m Hg). cbn.
    repeat split. by intros e ->%list_elem_of_singleton.
  - rewrite (consult_not_supplied now env x m Hx). cbn.
    repeat split. by intros e ?%elem_of_nil.
Qed.

Lemma generate_store w env id m :
  kv_after (generate_invite w (Date_now w) env id m) = m
  \/ exists c, upstream_issues w c
               /\ kv_after (generate_invite w (Date_now w) env id m)
                  = after_put env (kvKey id) (new_invite w id c) m.
Proof.
  destruct (upstream_cases w) as [H | [(r & H & Hok) | [(r & H & Hok & Hj)
    | [(r & dc & H & Hok & Hj & Hc) | (c & H)]]]].
  - rewrite (generate_network_error w env id m H). by left.
  - rewrite (generate_upstream_error w env id m r H Hok). by left.
  - rewrite (generate_bad_json w env id m r H Hok Hj). by left.
  - rewrite (generate_no_code w env id m r dc H Hok Hj Hc). by left.
  - rewrite (generate_issued w env id m c H). right. eauto.
Qed.

(** ** The cache is not needed for a single request *)

(** C6.  When the cache read and the cache write throw (the delete is then
    never reached), a request that passes the filters still has Discord
    called and the namespace left as found; the answer is the one the same
    request gets with no cache binding at all, so no cache fault shows in
    it; and when Discord issues a code the answer is the freshly issued
    record with status 200. *)
Theorem cache_outage_is_absorbed w env req KV m :
  reaches_core env req = true ->
  DISCORD_INVITES env = Some KV ->
  get_throws KV = true -> put_throws KV = true ->
  fetch_call env ∈ calls (GET w env req m)
  /\ kv_after (GET w env req m) = m
  /\ returned (GET w env req m) = returned (GET w (without_cache env) req m)
  /\ forall c,
       upstream_issues w c -> valid_time (Date_now w + 120000) = true ->
       returned (GET w env req m)
       = {| status := 200;
            body := InviteBody (resolved_id w req) c (Date_now w + 120000)
                      false (Date_now w) |}.
Proof.
  intros Hcore Hb Hg Hp.
  rewrite (unbound_run w (without_cache env) req m) by done.
  rewrite (GET_core w env req Hcore).
  destruct (consult_down (Date_now w) env KV (q_uuid req) m Hb Hg)
    as (Hret & Hkv & _).
  rewrite (lifecycle_issues w env req m Hret). cbv zeta.
  cbn [returned kv_after calls]. rewrite Hkv.
  split; [| split; [| split]].
  - rewrite !elem_of_app. right; right.
    destruct (generate_calls_shape w env (resolved_id w req) m)
      as [-> | (c & _ & ->)]; apply list_elem_of_here.
  - destruct (generate_store w env (resolved_id w req) m)
      as [-> | (c & _ & ->)]; [done |].
    unfold after_put. by rewrite Hb, Hp.
  - apply generate_returned_indep.
  - intros c Hup Hv. rewrite (generate_issued w env _ m c Hup), Hv. done.
Qed.

Lemma cache_outage_is_absorbed_witness :
  returned (GET (ex_world ex_t0 "zZ9") ex_env_down ex_req ex_store)
  = {| status := 200;
       body := InviteBody "c0ffee" "zZ9" (ex_t0 + 120000) false ex_t0 |}
  /\ kv_after (GET (ex_world ex_t0 "zZ9") ex_env_down ex_req ex_store)
     = ex_store.
Proof.
  destruct (cache_outage_is_absorbed (ex_world ex_t0 "zZ9") ex_env_down ex_req
              ex_kv_down ex_store)
    as (_ & Hkv & _ & Hret).
  - reflexivity.
  - reflexivity.
  - reflexivity.
  - reflexivity.
  - split; [| exact Hkv].
    apply (Hret "zZ9"); [apply ex_world_issues; discriminate | reflexivity].
Defined.

(** ** No cache binding *)

(** C10.  The configuration error is answered only when the bot token or the
    channel id is missing (or empty); the cache binding plays no part in
    it.  With no cache binding, a request that passes the filters makes no
    cache call, leaves the namespace untouched, and, when Discord issues a
    code, is answered with the freshly issued record and status 200. *)
Theorem missing_cache_binding_is_tolerated :
  (forall w env req m,
      returned (GET w env req m)
      = {| status := 500;
           body := ErrorBody "Missing Discord bot configuration" None |} ->
      truthy (DISCORD_BOT_TOKEN env) = false
      \/ truthy (DISCORD_CHANNEL_ID env) = false)
  /\ (forall env, missing_configuration (without_cache env)
                  = missing_configuration env)
  /\ (forall w env req m,
         reaches_core env req = true -> DISCORD_INVITES env = None ->
         (forall e, e ∈ calls (GET w env req m) -> is_kv_call e = false)
         /\ kv_after (GET w env req m) = m
         /\ fetch_call env ∈ calls (GET w env req m)
         /\ forall c,
              upstream_issues w c ->
              valid_time (Date_now w + 120000) = true ->
              returned (GET w env req m)
              = {| status := 200;
                   body := InviteBody (resolved_id w req) c
                             (Date_now w + 120000) false (Date_now w) |}).
Proof.
  split; [| split].
  - intros w env req m. unfold GET.
    destruct (cors_violation req); [discriminate |].
    destruct (missing_configuration env) eqn:Hm.
    + intros _. unfold missing_configuration in Hm.
      apply orb_true_iff in Hm as [Hm | Hm]; apply negb_true_iff in Hm; auto.
    + destruct (truthy (q_email req)); [discriminate |].
      destruct (bot_user_agent req); [discriminate |].
      intros Hret.
      assert (Hin : "Missing Discord bot configuration" ∈ lifecycle_errors).
      { apply (lifecycle_error w env req m). by rewrite Hret. }
      unfold lifecycle_errors in Hin.
      rewrite !elem_of_cons, elem_of_nil in Hin.
      destruct Hin as [? | [? | [? | []]]]; discriminate.
  - reflexivity.
  - intros w env req m Hcore Hnone.
    rewrite (unbound_run w env req m Hcore Hnone).
    cbn [returned kv_after calls]. split; [| split; [| split]].
    + destruct (generate_calls_shape w env (resolved_id w req) m)
        as [-> | (c & _ & ->)]; unfold put_call; rewrite ?Hnone;
        intros e [He | ->%list_elem_of_singleton]%elem_of_app; try done;
        by apply id_calls_elem in He as ->.
    + destruct (generate_store w env (resolved_id w req) m)
        as [-> | (c & _ & ->)]; [done |].
      unfold after_put. by rewrite Hnone.
    + rewrite elem_of_app. right.
      destruct (generate_calls_shape w env (resolved_id w req) m)
        as [-> | (c & _ & ->)]; apply list_elem_of_here.
    + intros c Hup Hv. rewrite (generate_issued w env _ m c Hup), Hv. done.
Qed.

Lemma missing_cache_binding_is_tolerated_witness :
  returned (GET (ex_world ex_t0 "zZ9") ex_env_unbound ex_req ex_store)
  = {| status := 200;
       body := InviteBody "c0ffee" "zZ9" (ex_t0 + 120000) false ex_t0 |}
  /\ kv_after (GET (ex_world ex_t0 "zZ9") ex_env_unbound ex_req ex_store)
     = ex_store.
Proof.
  destruct (proj2 (proj2 missing_cache_binding_is_tolerated)
              (ex_world ex_t0 "zZ9") ex_env_unbound ex_req ex_store)
    as (_ & Hkv & _ & Hret).
  - reflexivity.
  - reflexivity.
  - split; [| exact Hkv].
    apply (Hret "zZ9"); [apply ex_world_issues; discriminate | reflexivity].
Defined.

(** ** The filters *)

(** C7, as stated, fails: the CORS check comes first, so a request with the
    honeypot field set and a foreign Origin is answered 403, not 400. *)
Lemma honeypot_status_counterexample :
  q_email ex_req_foreign_bot = Some "bot@spam.example"
  /\ returned (GET (ex_world ex_t0 "zZ9") ex_env ex_req_foreign_bot ex_store)
     = {| status := 403; body := ErrorBody "Forbidden" None |}.
Proof. split; reflexivity. Qed.

(** The configuration check comes before the honeypot check as well. *)
Example honeypot_with_missing_token :
  returned (GET (ex_world ex_t0 "zZ9")
              {| DISCORD_BOT_TOKEN := None; DISCORD_CHANNEL_ID := Some "1234";
                 DISCORD_INVITES := Some ex_kv |}
              ex_req_honeypot ex_store)
  = {| status := 500;
       body := ErrorBody "Missing Discord bot configuration" None |}.
Proof. reflexivity. Qed.

(** C7, amended.  A request whose [email] parameter has a non-empty value
    never reaches the invite lifecycle: the handler makes no call and leaves
    the namespace untouched.  The rejection is the honeypot's 400 when the
    request passes the CORS check and the bot token and channel id are
    configured; a CORS violation is answered 403 and a missing configuration
    500 before the honeypot is looked at. *)
Theorem honeypot_request_is_rejected w env req m :
  truthy (q_email req) = true ->
  calls (GET w env req m) = []
  /\ kv_after (GET w env req m) = m
  /\ returned (GET w env req m)
     = if cors_violation req then
         {| status := 403; body := ErrorBody "Forbidden" None |}
       else if missing_configuration env then
         {| status := 500;
            body := ErrorBody "Missing Discord bot configuration" None |}
       else {| status := 400; body := ErrorBody "Invalid request" None |}.
Proof.
  intros He. unfold GET.
  destruct (cors_violation req); [done |].
  destruct (missing_configuration env); [done |].
  rewrite He. done.
Qed.

Lemma honeypot_request_is_rejected_witness :
  calls (GET (ex_world ex_t0 "zZ9") ex_env ex_req_honeypot ex_store) = []
  /\ returned (GET (ex_world ex_t0 "zZ9") ex_env ex_req_honeypot ex_store)
     = {| status := 400; body := ErrorBody "Invalid request" None |}.
Proof.
  destruct (honeypot_request_is_rejected (ex_world ex_t0 "zZ9") ex_env
              ex_req_honeypot ex_store)
    as (Hcalls & _ & Hret).
  - reflexivity.
  - split; [exact Hcalls | exact Hret].
Defined.

(** An [email] parameter with an empty value is falsy and lets the request
    through. *)
Example empty_honeypot_passes :
  reaches_core ex_env
    {| h_Origin := None; h_Referer := None; h_UserAgent := None;
       url_origin := "https://strands.gg"; q_email := Some "";
       q_uuid := None |} = true.
Proof. reflexivity. Qed.

Lemma cors_violation_inv req :
  cors_violation req = true ->
  (exists o, h_Origin req = Some o /\ o <> "" /\ o <> url_origin req)
  \/ (exists r, h_Referer req = Some r /\ r <> ""
                /\ startsWith r (url_origin req) = false).
Proof.
  unfold cors_violation.
  intros [[Ho Hne]%andb_true_iff | [Hr Hne]%andb_true_iff]%orb_true_iff.
  - left. apply truthy_inv in Ho as (o & Ho & Hnz). rewrite Ho in Hne.
    exists o. repeat split; try assumption.
    apply negb_true_iff in Hne. by apply String.eqb_neq.
  - right. apply truthy_inv in Hr as (r & Hr & Hnz). rewrite Hr in Hne.
    exists r. repeat split; try assumption. by apply negb_true_iff.
Qed.

Lemma forbidden_iff_cors_violation w env req m :
  returned (GET w env req m)
  = {| status := 403; body := ErrorBody "Forbidden" None |}
  <-> cors_violation req = true.
Proof.
  unfold GET. destruct (cors_violation req); [done |].
  split; [| discriminate].
  destruct (missing_configuration env); [discriminate |].
  destruct (truthy (q_email req)); [discriminate |].
  destruct (bot_user_agent req); [discriminate |].
  intros Hret.
  assert (Hin : "Forbidden" ∈ lifecycle_errors).
  { apply (lifecycle_error w env req m). by rewrite Hret. }
  unfold lifecycle_errors in Hin.
  rewrite !elem_of_cons, elem_of_nil in Hin.
  destruct Hin as [? | [? | [? | []]]]; discriminate.
Qed.

(** C9.  A request with neither an Origin nor a Referer header passes the
    CORS check and is not answered with the CORS 403.  That answer is given
    exactly when the check of line 17 fires, which requires an Origin header
    that differs from the request's own origin or a Referer header that does
    not start with it. *)
Theorem cors_rejects_only_foreign_origin w env req m :
  (h_Origin req = None -> h_Referer req = None ->
   cors_violation req = false
   /\ returned (GET w env req m)
      <> {| status := 403; body := ErrorBody "Forbidden" None |})
  /\ (returned (GET w env req m)
      = {| status := 403; body := ErrorBody "Forbidden" None |} ->
      (exists o, h_Origin req = Some o /\ o <> url_origin req)
      \/ (exists r, h_Referer req = Some r
                    /\ startsWith r (url_origin req) = false)).
Proof.
  split.
  - intros Ho Hr.
    assert (Hc : cors_violation req = false)
      by (unfold cors_violation; rewrite Ho, Hr; reflexivity).
    split; [exact Hc |].
    intros Hret%forbidden_iff_cors_violation. congruence.
  - intros Hret%forbidden_iff_cors_violation.
    apply cors_violation_inv in Hret
      as [(o & Ho & _ & Hne) | (r & Hr & _ & Hne)]; eauto.
Qed.

Lemma cors_rejects_only_foreign_origin_witness :
  cors_violation ex_req_no_headers = false
  /\ ((exists o, h_Origin ex_req_foreign_bot = Some o
                 /\ o <> url_origin ex_req_foreign_bot)
      \/ (exists r, h_Referer ex_req_foreign_bot = Some r
                    /\ startsWith r (url_origin ex_req_foreign_bot) = false)).
Proof.
  split.
  - apply (proj1 (cors_rejects_only_foreign_origin (ex_world ex_t0 "zZ9")
                    ex_env ex_req_no_headers ex_store));
      reflexivity.
  - apply (proj2 (cors_rejects_only_foreign_origin (ex_world ex_t0 "zZ9")
                    ex_env ex_req_foreign_bot ex_store)).
    reflexivity.
Defined.

(** ** The stored record *)

Lemma new_invite_times w id c :
  createdAt (new_invite w id c) = Date_now w
  /\ expiresAt (new_invite w id c) = createdAt (new_invite w id c) + 120000
  /\ expiresAt (new_invite w id c) > createdAt (new_invite w id c)
  /\ (expiresAt (new_invite w id c) - Date_now w) / 1000 = 120.
Proof.
  cbn [new_invite createdAt expiresAt].
  repeat split; [lia | apply ttl_seconds].
Qed.

(** A write found in a run is the write of the issuing step, and that step
    then leaves the namespace as [after_put] says. *)
Lemma GET_put_inv w env req m key v ttl :
  KvPut key v ttl ∈ calls (GET w env req m) ->
  exists c,
    upstream_issues w c
    /\ key = kvKey (resolved_id w req)
    /\ v = new_invite w (resolved_id w req) c /\ ttl = 120
    /\ kv_after (GET w env req m)
       = after_put env key v
           (kv_after (consult_cache (Date_now w) env (q_uuid req) m)).
Proof.
  destruct (reaches_core env req) eqn:Hcore.
  2: { destruct (GET_filtered w env req m Hcore) as [_ ->].
       by intros ?%elem_of_nil. }
  rewrite (GET_core w env req Hcore).
  destruct (returned (consult_cache (Date_now w) env (q_uuid req) m)) eqn:Hret.
  - rewrite (lifecycle_served w env req m r Hret). cbn [calls].
    intros (id & _ & _ & [He | He])%consult_calls_elem; discriminate He.
  - rewrite (lifecycle_issues w env req m Hret). cbv zeta.
    cbn [calls kv_after].
    intros [He | [He | He]%elem_of_app]%elem_of_app.
    + apply consult_calls_elem in He as (id & _ & _ & [He | He]);
        discriminate He.
    + apply id_calls_elem in He. discriminate He.
    + apply generate_calls_elem in He as [He | (c & Hup & He)];
        [discriminate He |].
      injection He as -> -> ->. exists c.
      rewrite (generate_issued w env _ _ c Hup). auto.
Qed.

(** C8.  Every record the handler writes to the cache has [createdAt] equal
    to the request's timestamp and [expiresAt = createdAt + 120,000], hence
    [expiresAt > createdAt]; it is written under the key of its own
    identifier with a TTL of the whole seconds left until [expiresAt], which
    is 120; and when the write goes through, that record with that TTL is
    what the namespace holds under the key. *)
Theorem stored_invite_expires_after_creation w env req m key v ttl :
  KvPut key v ttl ∈ calls (GET w env req m) ->
  createdAt v = Date_now w
  /\ expiresAt v = createdAt v + 120000
  /\ expiresAt v > createdAt v
  /\ ttl = (expiresAt v - Date_now w) / 1000
  /\ ttl = 120
  /\ key = kvKey (uuid v)
  /\ forall KV,
       DISCORD_INVITES env = Some KV -> put_throws KV = false ->
       kv_after (GET w env req m) !! key
       = Some {| value := v; expirationTtl := ttl |}.
Proof.
  intros (c & _ & -> & -> & -> & Hkv)%GET_put_inv.
  destruct (new_invite_times w (resolved_id w req) c) as (Hc & He & Hlt & Httl).
  repeat split; try assumption; try (symmetry; assumption).
  intros KV Hb Hp. rewrite Hkv. by eapply after_put_lookup.
Qed.

Lemma stored_invite_expires_after_creation_witness :
  expiresAt (new_invite (ex_world ex_t0 "zZ9") "c0ffee" "zZ9")
  > createdAt (new_invite (ex_world ex_t0 "zZ9") "c0ffee" "zZ9")
  /\ 120 = (expiresAt (new_invite (ex_world ex_t0 "zZ9") "c0ffee" "zZ9")
            - Date_now (ex_world ex_t0 "zZ9")) / 1000.
Proof.
  destruct (stored_invite_expires_after_creation (ex_world ex_t0 "zZ9") ex_env
              ex_req ∅ (kvKey "c0ffee")
              (new_invite (ex_world ex_t0 "zZ9") "c0ffee" "zZ9") 120)
    as (_ & _ & Hlt & Httl & _).
  - vm_compute. apply list_elem_of_further, list_elem_of_further,
      list_elem_of_here.
  - split; [exact Hlt | exact Httl].
Defined.

(** The handler keeps [expiresAt > createdAt] true of the whole namespace. *)
Lemma GET_preserves_well_formed w env req m :
  well_formed_store m -> well_formed_store (kv_after (GET w env req m)).
Proof.
  intros Hwf.
  assert (Hc : well_formed_store
                 (kv_after (consult_cache (Date_now w) env (q_uuid req) m))).
  { destruct (consult_store (Date_now w) env (q_uuid req) m)
      as [-> | (KV & id & e & _ & _ & _ & _ & _ & ->)]; [exact Hwf |].
    unfold after_delete. destruct (delete_throws KV); [exact Hwf |].
    intros key e' [_ Hl]%lookup_delete_Some. by eapply Hwf. }
  destruct (reaches_core env req) eqn:Hcore.
  2: { by destruct (GET_filtered w env req m Hcore) as [-> _]. }
  rewrite (GET_core w env req Hcore).
  destruct (returned (consult_cache (Date_now w) env (q_uuid req) m)) eqn:Hret.
  - by rewrite (lifecycle_served w env req m r Hret).
  - rewrite (lifecycle_issues w env req m Hret). cbv zeta. cbn [kv_after].
    destruct (generate_store w env (resolved_id w req)
                (kv_after (consult_cache (Date_now w) env (q_uuid req) m)))
      as [-> | (c & _ & ->)]; [exact Hc |].
    unfold after_put. destruct (DISCORD_INVITES env) as [KV|]; [| exact Hc].
    destruct (put_throws KV); [exact Hc |].
    intros key e' [[_ <-] | [_ Hl]]%lookup_insert_Some.
    + cbn. lia.
    + by eapply Hc.
Qed.

(** ** Further consequences *)

(** A freshly issued answer expires 120,000 ms after the request's clock. *)
Lemma fresh_answer_expiry w env req m u c e t :
  returned (GET w env req m)
  = {| status := 200; body := InviteBody u c e false t |} ->
  e = Date_now w + 120000.
Proof.
  unfold GET.
  destruct (cors_violation req); [discriminate |].
  destruct (missing_configuration env); [discriminate |].
  destruct (truthy (q_email req)); [discriminate |].
  destruct (bot_user_agent req); [discriminate |].
  destruct (returned (consult_cache (Date_now w) env (q_uuid req) m)) eqn:Hret.
  - rewrite (lifecycle_served w env req m r Hret). cbn [returned].
    pose proof (consult_cache_outcome (Date_now w) env (q_uuid req) m) as Hc.
    inversion Hc as [Hs Heq | KV id Hx Hid Hb Hwhy Heq
                    | KV id e' Hx Hid Hb Hg Hm Hrem Hv Heq
                    | KV id e' Hx Hid Hb Hg Hm Hrem Heq];
      rewrite <- Heq in Hret; cbn [returned] in Hret; try discriminate Hret.
    injection Hret as <-. discriminate.
  - rewrite (lifecycle_issues w env req m Hret). cbn [returned].
    by intros (_ & _ & -> & _)%generate_200.
Qed.

(** The idempotence window in terms of the two clocks: a call made less than
    110,000 ms after the call that issued an invite is answered with that
    invite. *)
Corollary reissue_only_after_110_seconds
  w1 w2 env req1 req2 KV id m u c e t :
  reaches_core env req1 = true -> reaches_core env req2 = true ->
  DISCORD_INVITES env = Some KV ->
  get_throws KV = false -> put_throws KV = false ->
  q_uuid req1 = Some id -> q_uuid req2 = Some id -> id <> "" ->
  returned (GET w1 env req1 m)
  = {| status := 200; body := InviteBody u c e false t |} ->
  Date_now w2 - Date_now w1 < 110000 ->
  returned (GET w2 env req2 (kv_after (GET w1 env req1 m)))
  = {| status := 200; body := InviteBody u c e true (Date_now w2) |}.
Proof.
  intros Hc1 Hc2 Hb Hg Hp Hq1 Hq2 Hid Hret Hlt.
  pose proof (fresh_answer_expiry w1 env req1 m u c e t Hret) as He.
  destruct (answered_invite_is_stored w1 env req1 KV id m u c e false t)
    as (Hv & en & Hen & <- & <- & Hexp); try assumption.
  rewrite <- Hexp in Hv, He.
  rewrite (cached_invite_served w2 env req2 KV id en) by (assumption || lia).
  unfold cached_response. by rewrite Hexp.
Qed.

(** A cached record whose expiry is beyond the range of JavaScript dates is
    not served, although it has time left: the log of line 84 throws, the
    catch of line 106 takes over, and a new invite is issued. *)
Example unformattable_expiry_is_reissued :
  calls (GET (ex_world ex_t0 "zZ9") ex_env ex_req
           {[ kvKey "c0ffee" :=
                {| value := {| uuid := "c0ffee"; code := "aBcD1234";
                               expiresAt := MAX_TIME + 1;
                               createdAt := ex_t0 |};
                   expirationTtl := 120 |} ]})
  = [KvGet (kvKey "c0ffee"); fetch_call ex_env;
     KvPut (kvKey "c0ffee") (new_invite (ex_world ex_t0 "zZ9") "c0ffee" "zZ9")
       120].
Proof. reflexivity. Qed.

(** The user-agent filter: a command-line client is turned away with 403. *)
Example curl_is_turned_away :
  GET (ex_world ex_t0 "zZ9") ex_env
    {| h_Origin := None; h_Referer := None; h_UserAgent := Some "cURL/8.5.0";
       url_origin := "https://strands.gg"; q_email := None;
       q_uuid := Some "c0ffee" |} ex_store
  = {| returned := {| status := 403; body := ErrorBody "Invalid request" None |};
       kv_after := ex_store; calls := [] |}.
Proof. reflexivity. Qed.

(** A record with exactly 10,000 ms left is stale. *)
Example ten_seconds_left_is_stale :
  returned (GET (ex_world (ex_t0 + 110000) "zZ9") ex_env ex_req ex_store)
  = {| status := 200;
       body := InviteBody "c0ffee" "zZ9" (ex_t0 + 230000) false
                 (ex_t0 + 110000) |}.
Proof. reflexivity. Qed.

(** ** Strings: prefixes and substrings *)

Lemma prefix_iff (p s : string) :
  String.prefix p s = true <-> exists rest, s = p +:+ rest.
Proof.
  revert s. induction p as [|c p IH]; intros s.
  - split; [intros _; exists s; reflexivity | intros _; by destruct s].
  - destruct s as [|c' s].
    + split; [discriminate | intros [rest Hrest]; discriminate Hrest].
    + change (String.prefix (String c p) (String c' s))
        with (if Ascii.ascii_dec c c' then String.prefix p s else false).
      destruct (Ascii.ascii_dec c c') as [<- | Hne].
      * rewrite IH. split; intros [rest Hrest]; exists rest.
        -- change (String c p +:+ rest) with (String c (p +:+ rest)).
           by rewrite Hrest.
        -- change (String c p +:+ rest) with (String c (p +:+ rest)) in Hrest.
           by injection Hrest.
      * split; [discriminate |]. intros [rest Hrest].
        change (String c p +:+ rest) with (String c (p +:+ rest)) in Hrest.
        injection Hrest as -> _. by destruct Hne.
Qed.

Lemma includes_iff (s p : string) :
  includes s p = true <-> exists before after, s = before +:+ p +:+ after.
Proof.
  induction s as [|c s IH].
  - change (includes "" p) with (if String.prefix p "" then true else false).
    destruct (String.prefix p "") eqn:Hp.
    + apply prefix_iff in Hp as [rest Hrest]. split; [| reflexivity].
      intros _. exists "", rest. exact Hrest.
    + split; [discriminate |]. intros ([|c before] & after & Heq).
      * assert (String.prefix p "" = true) by (apply prefix_iff; eauto).
        congruence.
      * discriminate Heq.
  - change (includes (String c s) p)
      with (if String.prefix p (String c s) then true else includes s p).
    destruct (String.prefix p (String c s)) eqn:Hp.
    + apply prefix_iff in Hp as [rest Hrest]. split; [| reflexivity].
      intros _. exists "", rest. exact Hrest.
    + rewrite IH. split.
      * intros (before & after & ->). by exists (String c before), after.
      * intros ([|c' before] & after & Heq).
        -- assert (String.prefix p (String c s) = true)
             by (apply prefix_iff; eauto).
           congruence.
        -- change (String c' before +:+ p +:+ after)
             with (String c' (before +:+ p +:+ after)) in Heq.
           injection Heq as _ ->. eauto.
Qed.

Lemma lower_string_app (a b : string) :
  lower_string (a +:+ b) = lower_string a +:+ lower_string b.
Proof.
  induction a as [|c a IH]; [reflexivity |].
  change (lower_string (String c (a +:+ b))
          = String (lower c) (lower_string a +:+ lower_string b)).
  change (String (lower c) (lower_string (a +:+ b))
          = String (lower c) (lower_string a +:+ lower_string b)).
  by rewrite IH.
Qed.

Lemma botPatterns_lower p : In p botPatterns -> lower_string p = p.
Proof.
  unfold botPatterns. cbn [In].
  intros [<- | [<- | [<- | [<- | [<- | [<- | [<- | [<- | [<- | []]]]]]]]]];
    reflexivity.
Qed.

(** ** The user-agent filter *)

Lemma bot_user_agent_contains req :
  bot_user_agent req = true
  <-> exists pattern before after,
        In pattern botPatterns
        /\ lower_string (or_empty (h_UserAgent req))
           = before +:+ pattern +:+ after.
Proof.
  unfold bot_user_agent. rewrite existsb_exists. split.
  - intros (p & Hin & Ht). unfold test_i in Ht.
    rewrite (botPatterns_lower p Hin) in Ht.
    apply includes_iff in Ht as (before & after & Heq). eauto 6.
  - intros (p & before & after & Hin & Heq). exists p. split; [done |].
    unfold test_i. rewrite (botPatterns_lower p Hin).
    apply includes_iff. eauto.
Qed.

(** X1.  The user-agent filter fires exactly when the User-Agent, letters
    folded to lower case, contains one of the nine patterns as a substring;
    a request without the header is never caught by it. *)
Theorem bot_user_agent_iff req :
  (bot_user_agent req = true
   <-> exists pattern before after,
         In pattern botPatterns
         /\ lower_string (or_empty (h_UserAgent req))
            = before +:+ pattern +:+ after)
  /\ (h_UserAgent req = None -> bot_user_agent req = false).
Proof.
  split; [apply bot_user_agent_contains |].
  intros H. unfold bot_user_agent. rewrite H. reflexivity.
Qed.

Lemma bot_user_agent_iff_witness :
  bot_user_agent ex_req_bare = false
  /\ bot_user_agent ex_req_script = true.
Proof.
  split.
  - apply (proj2 (bot_user_agent_iff ex_req_bare)). reflexivity.
  - apply (proj1 (bot_user_agent_iff ex_req_script)).
    exists "python", "my-", "-requests/2.31". split; [| reflexivity].
    cbn. tauto.
Defined.

(** X2.  A request that passes the CORS, configuration and honeypot checks
    and whose User-Agent contains, in any mix of upper and lower case, one
    of the nine patterns is answered 403 "Invalid request"; the handler makes
    no call and leaves the namespace untouched. *)
Theorem bot_is_turned_away w env req m before word after :
  cors_violation req = false -> missing_configuration env = false ->
  truthy (q_email req) = false ->
  h_UserAgent req = Some (before +:+ word +:+ after) ->
  In (lower_string word) botPatterns ->
  GET w env req m
  = {| returned := {| status := 403; body := ErrorBody "Invalid request" None |};
       kv_after := m; calls := [] |}.
Proof.
  intros Hc Hm He Hua Hin. unfold GET. rewrite Hc, Hm, He.
  assert (Hbot : bot_user_agent req = true).
  { apply bot_user_agent_contains.
    exists (lower_string word), (lower_string before), (lower_string after).
    split; [done |]. rewrite Hua. cbn [or_empty].
    by rewrite !lower_string_app. }
  rewrite Hbot. reflexivity.
Qed.

Lemma bot_is_turned_away_witness :
  GET (ex_world ex_t0 "zZ9") ex_env ex_req_script ex_store
  = {| returned := {| status := 403; body := ErrorBody "Invalid request" None |};
       kv_after := ex_store; calls := [] |}.
Proof.
  apply (bot_is_turned_away (ex_world ex_t0 "zZ9") ex_env ex_req_script
           ex_store "My-" "PYTHON" "-Requests/2.31").
  - reflexivity.
  - reflexivity.
  - reflexivity.
  - reflexivity.
  - cbn. tauto.
Defined.

(** ** The CORS check *)

(** X3.  The CORS check passes exactly when the Origin header is absent,
    empty or equal to the request's own origin, and the Referer header is
    absent, empty or begins with the text of that origin, whatever follows
    it. *)
Theorem cors_check_passes_iff req :
  cors_violation req = false
  <-> (truthy (h_Origin req) = false \/ h_Origin req = Some (url_origin req))
      /\ (truthy (h_Referer req) = false
          \/ exists rest, h_Referer req = Some (url_origin req +:+ rest)).
Proof.
  unfold cors_violation, startsWith.
  rewrite orb_false_iff, !andb_false_iff, !negb_false_iff, String.eqb_eq,
    prefix_iff.
  split; intros [Ho Hr]; split.
  - destruct Ho as [Ho | Ho]; [by left |].
    destruct (h_Origin req) as [o|]; [right | by left].
    cbn in Ho. by rewrite Ho.
  - destruct Hr as [Hr | [rest Hr]]; [by left |].
    destruct (h_Referer req) as [r|]; [right | by left].
    cbn in Hr. exists rest. by rewrite Hr.
  - destruct Ho as [Ho | Ho]; [by left | right]. by rewrite Ho.
  - destruct Hr as [Hr | [rest Hr]]; [by left | right]. rewrite Hr. eauto.
Qed.

Lemma cors_check_passes_iff_witness :
  cors_violation ex_req_lookalike = false.
Proof.
  apply (proj2 (cors_check_passes_iff ex_req_lookalike)). split.
  - left. reflexivity.
  - right. exists ".evil.example/discord". reflexivity.
Defined.

(** ** Empty values *)

Lemma truthy_absent_if_empty x : truthy (absent_if_empty x) = truthy x.
Proof. by destruct x as [[|c s]|]. Qed.

Lemma or_empty_absent_if_empty x : or_empty (absent_if_empty x) = or_empty x.
Proof. by destruct x as [[|c s]|]. Qed.

Lemma consult_cache_normalize now env x :
  consult_cache now (normalize_env env) (absent_if_empty x)
  = consult_cache now env x.
Proof.
  unfold consult_cache.
  change (DISCORD_INVITES (normalize_env env)) with (DISCORD_INVITES env).
  by rewrite truthy_absent_if_empty, or_empty_absent_if_empty.
Qed.

Lemma generate_invite_normalize w now env id :
  generate_invite w now (normalize_env env) id = generate_invite w now env id.
Proof.
  unfold generate_invite.
  change (DISCORD_INVITES (normalize_env env)) with (DISCORD_INVITES env).
  change (DISCORD_CHANNEL_ID (normalize_env env))
    with (absent_if_empty (DISCORD_CHANNEL_ID env)).
  change (DISCORD_BOT_TOKEN (normalize_env env))
    with (absent_if_empty (DISCORD_BOT_TOKEN env)).
  by rewrite !or_empty_absent_if_empty.
Qed.

(** X4.  The handler does not tell an empty value from an absent one: with
    every empty header, query parameter, bot token and channel id replaced
    by an absent one, the run is the same. *)
Theorem empty_values_are_absent w env req m :
  GET w (normalize_env env) (normalize_request req) m = GET w env req m.
Proof.
  unfold GET.
  assert (Hc : cors_violation (normalize_request req) = cors_violation req).
  { unfold cors_violation. cbn [h_Origin h_Referer url_origin normalize_request].
    by rewrite !truthy_absent_if_empty, !or_empty_absent_if_empty. }
  assert (Hm : missing_configuration (normalize_env env)
               = missing_configuration env).
  { unfold missing_configuration.
    cbn [DISCORD_BOT_TOKEN DISCORD_CHANNEL_ID normalize_env].
    by rewrite !truthy_absent_if_empty. }
  assert (Hb : bot_user_agent (normalize_request req) = bot_user_agent req).
  { unfold bot_user_agent. cbn [h_UserAgent normalize_request].
    by rewrite or_empty_absent_if_empty. }
  rewrite Hc, Hm, Hb. cbn [q_email normalize_request].
  rewrite truthy_absent_if_empty.
  destruct (cors_violation req); [reflexivity |].
  destruct (missing_configuration env); [reflexivity |].
  destruct (truthy (q_email req)); [reflexivity |].
  destruct (bot_user_agent req); [reflexivity |].
  unfold issue_or_reuse. cbn [q_uuid normalize_request].
  rewrite consult_cache_normalize, truthy_absent_if_empty,
    or_empty_absent_if_empty.
  unfold bind. destruct (returned (consult_cache _ _ _ _)); [reflexivity |].
  by rewrite generate_invite_normalize.
Qed.

(** ** What a run answers and calls, together *)

Lemma generate_answer w env id m :
  (exists c, upstream_issues w c
             /\ valid_time (Date_now w + 120000) = true
             /\ returned (generate_invite w (Date_now w) env id m)
                = issued_response w id c)
  \/ (exists msg, returned (generate_invite w (Date_now w) env id m)
                  = json_error 500 msg None)
  \/ (exists fr d, discord w = Returned fr /\ ok fr = false
                   /\ returned (generate_invite w (Date_now w) env id m)
                      = json_error (fr_status fr) "Failed to generate invite"
                          (Some d)).
Proof.
  destruct (upstream_cases w) as [H | [(r & H & Hok) | [(r & H & Hok & Hj)
    | [(r & dc & H & Hok & Hj & Hc) | (c & H)]]]].
  - rewrite (generate_network_error w env id m H). right; left. eauto.
  - rewrite (generate_upstream_error w env id m r H Hok). cbn [returned].
    destruct (fr_text r) as [d|]; [| right; left; eauto].
    destruct (Response_accepts (fr_status r));
      [right; right; eauto 6 | right; left; eauto].
  - rewrite (generate_bad_json w env id m r H Hok Hj). right; left. eauto.
  - rewrite (generate_no_code w env id m r dc H Hok Hj Hc). right; left. eauto.
  - rewrite (generate_issued w env id m c H). cbn [returned].
    destruct (valid_time (Date_now w + 120000)) eqn:Hv;
      [left; eauto | right; left; eauto].
Qed.

Lemma generate_calls_fetch w env id m :
  fetch_call env ∈ calls (generate_invite w (Date_now w) env id m).
Proof.
  destruct (generate_calls_shape w env id m) as [-> | (c & _ & ->)];
    apply list_elem_of_here.
Qed.

(** A run of the lifecycle either serves the record found under the supplied
    identifier after the one read, or runs the issuing step. *)
Lemma lifecycle_run_cases w env req m :
  (exists id e,
      q_uuid req = Some id /\ id <> "" /\ m !! kvKey id = Some e
      /\ issue_or_reuse w env req m
         = {| returned := cached_response (Date_now w) (value e);
              kv_after := m; calls := [KvGet (kvKey id)] |})
  \/ (exists m',
         returned (issue_or_reuse w env req m)
         = returned (generate_invite w (Date_now w) env (resolved_id w req) m')
         /\ fetch_call env ∈ calls (issue_or_reuse w env req m)).
Proof.
  pose proof (consult_cache_outcome (Date_now w) env (q_uuid req) m) as Hc.
  inversion Hc as [Hs Heq | KV id Hx Hid Hb Hwhy Heq
                  | KV id e' Hx Hid Hb Hg Hm Hrem Hv Heq
                  | KV id e' Hx Hid Hb Hg Hm Hrem Heq].
  1, 2, 4: right;
    rewrite lifecycle_issues by (rewrite <- Heq; reflexivity);
    cbv zeta; cbn [returned calls]; eexists; split; [reflexivity |];
    rewrite !elem_of_app; right; right; apply generate_calls_fetch.
  left. exists id, e'. repeat split; try assumption.
  rewrite lifecycle_served with (r := cached_response (Date_now w) (value e'))
    by (rewrite <- Heq; reflexivity).
  by rewrite <- Heq.
Qed.

Lemma not_ok_not_200 fr : ok fr = false -> fr_status fr <> 200.
Proof. unfold ok. intros H Heq. rewrite Heq in H. discriminate H. Qed.

(** X5.  An answer has status 200 exactly when it carries an invite, and an
    error answer has status 400, 403 or 500, or else the status, outside
    200-299, that Discord answered with. *)
Theorem answer_status w env req m :
  (status (returned (GET w env req m)) = 200
   <-> error_of (returned (GET w env req m)) = None)
  /\ (status (returned (GET w env req m)) = 200
      \/ status (returned (GET w env req m)) = 400
      \/ status (returned (GET w env req m)) = 403
      \/ status (returned (GET w env req m)) = 500
      \/ exists fr, discord w = Returned fr /\ ok fr = false
                    /\ status (returned (GET w env req m)) = fr_status fr).
Proof.
  unfold GET.
  destruct (cors_violation req); [cbn; split; [split; discriminate | auto] |].
  destruct (missing_configuration env);
    [cbn; split; [split; discriminate | auto] |].
  destruct (truthy (q_email req)); [cbn; split; [split; discriminate | auto] |].
  destruct (bot_user_agent req); [cbn; split; [split; discriminate | auto] |].
  destruct (lifecycle_run_cases w env req m)
    as [(id & e & _ & _ & _ & ->) | (m' & -> & _)].
  - cbn. split; [split; reflexivity | auto].
  - destruct (generate_answer w env (resolved_id w req) m')
      as [(c & _ & _ & ->) | [(msg & ->) | (fr & d & Hfr & Hok & ->)]]; cbn.
    + split; [split; reflexivity | auto].
    + split; [split; discriminate | auto].
    + split; [| eauto 10].
      split; [| discriminate]. intros H. by apply not_ok_not_200 in H.
Qed.

(** X6.  In an invite answer the [cached] flag says whether Discord was
    called: the upstream call is among the calls of the run exactly when the
    flag is false; a cached answer comes after a single cache read, a fresh
    one expires 120,000 ms after the request's clock, and [serverTime] is
    that clock. *)
Theorem cached_flag_is_truthful w env req m st u c e cached t :
  returned (GET w env req m)
  = {| status := st; body := InviteBody u c e cached t |} ->
  (fetch_call env ∈ calls (GET w env req m) <-> cached = false)
  /\ (cached = true -> exists key, calls (GET w env req m) = [KvGet key])
  /\ (cached = false -> e = Date_now w + 120000)
  /\ t = Date_now w.
Proof.
  unfold GET.
  destruct (cors_violation req); [discriminate |].
  destruct (missing_configuration env); [discriminate |].
  destruct (truthy (q_email req)); [discriminate |].
  destruct (bot_user_agent req); [discriminate |].
  destruct (lifecycle_run_cases w env req m)
    as [(id & e' & _ & _ & _ & ->) | (m' & -> & Hin)].
  - cbn [returned calls]. unfold cached_response.
    intros [= ? ? ? ? ? ?]; subst. repeat split; try done.
    + intros Hf%list_elem_of_singleton. discriminate Hf.
    + eauto.
  - destruct (generate_answer w env (resolved_id w req) m')
      as [(c' & _ & _ & ->) | [(msg & ->) | (fr & d & Hfr & Hok & ->)]];
      try discriminate.
    unfold issued_response. intros [= ? ? ? ? ? ?]; subst.
    repeat split; done.
Qed.

Lemma cached_flag_is_truthful_witness :
  (exists key,
      calls (GET (ex_world (ex_t0 + 60000) "zZ9") ex_env ex_req ex_store)
      = [KvGet key])
  /\ fetch_call ex_env ∈ calls (GET (ex_world ex_t0 "zZ9") ex_env ex_req ∅).
Proof.
  split.
  - apply (cached_flag_is_truthful (ex_world (ex_t0 + 60000) "zZ9") ex_env
             ex_req ex_store 200 "c0ffee" "aBcD1234" (ex_t0 + 120000) true
             (ex_t0 + 60000));
      reflexivity.
  - apply (cached_flag_is_truthful (ex_world ex_t0 "zZ9") ex_env ex_req ∅
             200 "c0ffee" "zZ9" (ex_t0 + 120000) false ex_t0);
      reflexivity.
Defined.

(** ** Each operation at most once *)

Ltac distinct_calls :=
  repeat (apply NoDup_cons; split;
          [rewrite ?elem_of_cons, elem_of_nil; unfold fetch_call;
           intuition discriminate |]);
  apply NoDup_nil; exact I.

(** X7.  In one request every operation happens at most once: the calls of
    a run are pairwise distinct and at most four (a read, a delete, the
    upstream call and a write, or the draw of an identifier, the upstream
    call and a write), and an upstream call is always the one POST of lines
    120-135: the configured channel and token, max_age 120, max_uses 1,
    temporary false, unique true. *)
Theorem calls_happen_once w env req m :
  NoDup (calls (GET w env req m))
  /\ (length (calls (GET w env req m)) <= 4)%nat
  /\ forall channel token max_age max_uses temporary unique,
       Fetch channel token max_age max_uses temporary unique
       ∈ calls (GET w env req m) ->
       channel = or_empty (DISCORD_CHANNEL_ID env)
       /\ token = or_empty (DISCORD_BOT_TOKEN env)
       /\ max_age = 120 /\ max_uses = 1
       /\ temporary = false /\ unique = true.
Proof.
  split; [| split].
  3: { intros ch tok a b t u Hin.
       apply GET_calls_elem in Hin
         as [(id & _ & _ & [He | He]) | [[He _] | [He | (c & _ & He)]]];
         try discriminate He.
       unfold fetch_call in He. by injection He as -> -> -> -> -> ->. }
  all: destruct (reaches_core env req) eqn:Hcore;
    [| destruct (GET_filtered w env req m Hcore) as [_ ->];
       first [apply NoDup_nil; exact I | cbn; lia]].
  all: rewrite (GET_core w env req Hcore), lifecycle_calls.
  all: pose proof (consult_cache_outcome (Date_now w) env (q_uuid req) m) as Hc.
  all: inversion Hc as [Hs Heq | KV id Hx Hid Hb Hwhy Heq
                       | KV id e' Hx Hid Hb Hg Hm Hrem Hv Heq
                       | KV id e' Hx Hid Hb Hg Hm Hrem Heq];
    cbn [returned calls kv_after].
  all: try (unfold id_calls; rewrite Hx, (truthy_Some id Hid)).
  all: try (unfold id_calls; destruct (truthy (q_uuid req))).
  all: try match goal with
           | |- context [calls (generate_invite ?w ?n ?env ?i ?s)] =>
               destruct (generate_calls_shape w env i s) as [-> | (c & _ & ->)];
               unfold put_call; try destruct (DISCORD_INVITES env)
           end.
  all: cbn [app length]; first [lia | distinct_calls].
Qed.

(** ** Only the caller's own entry is touched *)

Lemma after_delete_other KV key key' m :
  key' <> key -> after_delete KV key m !! key' = m !! key'.
Proof.
  intros Hne. unfold after_delete. destruct (delete_throws KV); [done |].
  by apply lookup_delete_ne.
Qed.

Lemma after_put_other env key v key' m :
  key' <> key -> after_put env key v m !! key' = m !! key'.
Proof.
  intros Hne. unfold after_put. destruct (DISCORD_INVITES env) as [KV|]; [| done].
  destruct (put_throws KV); [done |]. by apply lookup_insert_ne.
Qed.

Lemma consult_store_other w env req m key :
  key <> kvKey (resolved_id w req) ->
  kv_after (consult_cache (Date_now w) env (q_uuid req) m) !! key = m !! key.
Proof.
  intros Hne.
  destruct (consult_store (Date_now w) env (q_uuid req) m)
    as [-> | (KV & id & e & _ & Hq & Hid & _ & _ & ->)]; [done |].
  destruct (resolved_supplied w req id Hq Hid) as [Hres _].
  rewrite Hres in Hne. by apply after_delete_other.
Qed.

(** X8.  A request changes nothing in the namespace outside the entry of its
    own identifier (the one supplied, or else the one drawn). *)
Theorem other_entries_are_untouched w env req m key :
  key <> kvKey (resolved_id w req) ->
  kv_after (GET w env req m) !! key = m !! key.
Proof.
  intros Hne.
  destruct (reaches_core env req) eqn:Hcore.
  2: { by destruct (GET_filtered w env req m Hcore) as [-> _]. }
  rewrite (GET_core w env req Hcore).
  destruct (returned (consult_cache (Date_now w) env (q_uuid req) m)) eqn:Hret.
  - rewrite (lifecycle_served w env req m r Hret). cbn [kv_after].
    by apply consult_store_other.
  - rewrite (lifecycle_issues w env req m Hret). cbv zeta. cbn [kv_after].
    destruct (generate_store w env (resolved_id w req)
                (kv_after (consult_cache (Date_now w) env (q_uuid req) m)))
      as [-> | (c & _ & ->)].
    + by apply consult_store_other.
    + rewrite after_put_other by done. by apply consult_store_other.
Qed.

Lemma other_entries_are_untouched_witness :
  kv_after (GET (ex_world (ex_t0 + 110000) "zZ9") ex_env ex_req_anonymous
              ex_store) !! kvKey "c0ffee"
  = ex_store !! kvKey "c0ffee".
Proof.
  apply (other_entries_are_untouched (ex_world (ex_t0 + 110000) "zZ9") ex_env
           ex_req_anonymous ex_store (kvKey "c0ffee")).
  vm_compute. discriminate.
Defined.

(** ** Upstream failures without a readable answer *)

(** X9.  When the handler has called Discord and the call throws, or the
    body of an error answer cannot be read, or the body of a success answer
    is not JSON, the answer is the bare 500 "Internal server error" with no
    details; no cache write is made and the namespace is as found, up to
    the earlier delete of a stale entry. *)
Theorem unreadable_upstream_is_a_bare_500 w env req m :
  fetch_call env ∈ calls (GET w env req m) ->
  upstream_unreadable w ->
  returned (GET w env req m)
  = {| status := 500; body := ErrorBody "Internal server error" None |}
  /\ (forall e, e ∈ calls (GET w env req m) -> is_kv_write e = false)
  /\ unchanged_but_stale_delete env req (Date_now w) m
       (kv_after (GET w env req m)).
Proof.
  intros Hin Hun. apply failed_issue_leaves_cache; [exact Hin |]. intros s.
  destruct Hun as [H | (r & H & [[Hok Ht] | [Hok Hj]])].
  - by apply generate_network_error.
  - rewrite (generate_upstream_error w env _ s r H Hok), Ht. reflexivity.
  - by eapply generate_bad_json.
Qed.

Lemma unreadable_upstream_is_a_bare_500_witness :
  returned (GET ex_world_offline ex_env ex_req_anonymous ex_store)
  = {| status := 500; body := ErrorBody "Internal server error" None |}.
Proof.
  apply (unreadable_upstream_is_a_bare_500 ex_world_offline ex_env
           ex_req_anonymous ex_store).
  - vm_compute. apply list_elem_of_further, list_elem_of_here.
  - left. reflexivity.
Defined.

(** ** Faults of the cache write and delete *)

Lemma consult_returned_same_reads now env KV KV' x m :
  DISCORD_INVITES env = Some KV -> get_throws KV' = get_throws KV ->
  returned (consult_cache now (with_binding env KV') x m)
  = returned (consult_cache now env x m).
Proof.
  intros Hb Hg. unfold consult_cache.
  change (DISCORD_INVITES (with_binding env KV')) with (Some KV').
  rewrite Hb. destruct (truthy x); [| reflexivity].
  unfold KV_get, KV_delete, bind, emit, ret, read_store, modify_store.
  cbn. rewrite Hg. destruct (get_throws KV); [reflexivity |]. cbn.
  destruct (m !! kvKey (or_empty x)) as [e|]; [| reflexivity]. cbn.
  destruct (10000 <? expiresAt (value e) - now); [| reflexivity].
  destruct (valid_time (expiresAt (value e))); reflexivity.
Qed.

(** X10.  Whether the cache delete and the cache write throw makes no
    difference to the answer: with a binding that reads alike, the handler
    answers the same. *)
Theorem write_faults_do_not_change_the_answer w env req m KV KV' :
  DISCORD_INVITES env = Some KV -> get_throws KV' = get_throws KV ->
  returned (GET w (with_binding env KV') req m) = returned (GET w env req m).
Proof.
  intros Hb Hg. unfold GET.
  change (missing_configuration (with_binding env KV'))
    with (missing_configuration env).
  destruct (cors_violation req); [reflexivity |].
  destruct (missing_configuration env); [reflexivity |].
  destruct (truthy (q_email req)); [reflexivity |].
  destruct (bot_user_agent req); [reflexivity |].
  pose proof (consult_returned_same_reads (Date_now w) env KV KV' (q_uuid req)
                m Hb Hg) as Hsame.
  destruct (returned (consult_cache (Date_now w) env (q_uuid req) m)) eqn:Hret.
  - rewrite (lifecycle_served w env req m r Hret).
    rewrite (lifecycle_served w (with_binding env KV') req m r Hsame).
    reflexivity.
  - rewrite (lifecycle_issues w env req m Hret).
    rewrite (lifecycle_issues w (with_binding env KV') req m Hsame).
    cbv zeta. cbn [returned]. apply generate_returned_indep.
Qed.

Lemma write_faults_do_not_change_the_answer_witness :
  returned (GET (ex_world (ex_t0 + 110000) "zZ9")
              (with_binding ex_env
                 {| get_throws := false; delete_throws := true;
                    put_throws := true |})
              ex_req ex_store)
  = returned (GET (ex_world (ex_t0 + 110000) "zZ9") ex_env ex_req ex_store).
Proof.
  apply (write_faults_do_not_change_the_answer (ex_world (ex_t0 + 110000) "zZ9")
           ex_env ex_req ex_store ex_kv).
  - reflexivity.
  - reflexivity.
Defined.

(** ** Identifiers the handler draws or meets for the first time *)

(** X11.  The identifier drawn for a request without one is usable: when
    such a request is answered with an invite and the cache works, the
    answer names the drawn identifier, and a later request that supplies it
    while more than 10,000 ms of the invite remain is answered with the same
    code and expiry from the cache. *)
Theorem drawn_identifier_reaches_the_cache
  w1 w2 env req1 req2 KV m u c e cached t :
  reaches_core env req1 = true -> reaches_core env req2 = true ->
  DISCORD_INVITES env = Some KV ->
  get_throws KV = false -> put_throws KV = false ->
  truthy (q_uuid req1) = false ->
  returned (GET w1 env req1 m)
  = {| status := 200; body := InviteBody u c e cached t |} ->
  u <> "" -> q_uuid req2 = Some u ->
  e - Date_now w2 > 10000 ->
  u = crypto_randomUUID w1
  /\ GET w2 env req2 (kv_after (GET w1 env req1 m))
     = {| returned :=
            {| status := 200; body := InviteBody u c e true (Date_now w2) |};
          kv_after := kv_after (GET w1 env req1 m);
          calls := [KvGet (kvKey u)] |}.
Proof.
  intros Hc1 Hc2 Hb Hg Hp Hno Hret Hu Hq2 Hrem.
  rewrite (GET_core w1 env req1 Hc1) in *.
  pose proof (consult_not_supplied (Date_now w1) env (q_uuid req1) m Hno) as Hc.
  assert (Hnone : returned (consult_cache (Date_now w1) env (q_uuid req1) m)
                  = None) by (by rewrite Hc).
  rewrite (lifecycle_issues w1 env req1 m Hnone) in *. cbv zeta in *.
  cbn [returned kv_after] in *. rewrite Hc in *. cbn [kv_after] in *.
  assert (Hres : resolved_id w1 req1 = crypto_randomUUID w1)
    by (unfold resolved_id; by rewrite Hno).
  rewrite Hres in *.
  apply generate_200 in Hret as (_ & -> & -> & _ & _ & Hv & Hkv).
  split; [reflexivity |]. rewrite Hkv.
  rewrite (cached_invite_served w2 env req2 KV (crypto_randomUUID w1)
             {| value := new_invite w1 (crypto_randomUUID w1) c;
                expirationTtl := 120 |}); try done.
  by apply (after_put_lookup env KV).
Qed.

Lemma drawn_identifier_reaches_the_cache_witness :
  "9b2f6c1e" = crypto_randomUUID (ex_world ex_t0 "aBcD1234")
  /\ GET (ex_world (ex_t0 + 30000) "zZ9") ex_env
       {| h_Origin := None; h_Referer := None; h_UserAgent := None;
          url_origin := "https://strands.gg"; q_email := None;
          q_uuid := Some "9b2f6c1e" |}
       (kv_after (GET (ex_world ex_t0 "aBcD1234") ex_env ex_req_anonymous ∅))
     = {| returned :=
            {| status := 200;
               body := InviteBody "9b2f6c1e" "aBcD1234" (ex_t0 + 120000) true
                         (Date_now (ex_world (ex_t0 + 30000) "zZ9")) |};
          kv_after :=
            kv_after (GET (ex_world ex_t0 "aBcD1234") ex_env ex_req_anonymous ∅);
          calls := [KvGet (kvKey "9b2f6c1e")] |}.
Proof.
  apply (drawn_identifier_reaches_the_cache
           (ex_world ex_t0 "aBcD1234") (ex_world (ex_t0 + 30000) "zZ9")
           ex_env ex_req_anonymous
           {| h_Origin := None; h_Referer := None; h_UserAgent := None;
              url_origin := "https://strands.gg"; q_email := None;
              q_uuid := Some "9b2f6c1e" |}
           ex_kv ∅ "9b2f6c1e" "aBcD1234" (ex_t0 + 120000) false ex_t0).
  - reflexivity.
  - reflexivity.
  - reflexivity.
  - reflexivity.
  - reflexivity.
  - reflexivity.
  - reflexivity.
  - discriminate.
  - reflexivity.
  - reflexivity.
Defined.

(** X12.  An identifier the cache knows nothing of is kept: after the one
    read, with no delete, Discord is called, the invite is written under the
    caller's identifier and the answer names that identifier. *)
Theorem unknown_identifier_is_issued_and_stored w env req KV id m c :
  reaches_core env req = true ->
  DISCORD_INVITES env = Some KV -> get_throws KV = false ->
  q_uuid req = Some id -> id <> "" ->
  m !! kvKey id = None ->
  upstream_issues w c -> valid_time (Date_now w + 120000) = true ->
  GET w env req m
  = {| returned :=
         {| status := 200;
            body := InviteBody id c (Date_now w + 120000) false (Date_now w) |};
       kv_after := after_put env (kvKey id) (new_invite w id c) m;
       calls := [KvGet (kvKey id); fetch_call env;
                 KvPut (kvKey id) (new_invite w id c) 120] |}.
Proof.
  intros Hcore Hb Hg Hq Hid Hm Hup Hv. rewrite (GET_core w env req Hcore).
  pose proof (consult_miss (Date_now w) env KV id Hb Hid m Hg Hm) as Hc.
  destruct (resolved_supplied w req id Hq Hid) as [Hres Hidc].
  rewrite (lifecycle_issued w env req m c) by (rewrite ?Hq, ?Hc; done).
  rewrite Hq, Hc, Hres, Hidc. unfold put_call. by rewrite Hb.
Qed.

Lemma unknown_identifier_is_issued_and_stored_witness :
  GET (ex_world ex_t0 "zZ9") ex_env ex_req ∅
  = {| returned :=
         {| status := 200;
            body := InviteBody "c0ffee" "zZ9" (ex_t0 + 120000) false ex_t0 |};
       kv_after :=
         after_put ex_env (kvKey "c0ffee")
           (new_invite (ex_world ex_t0 "zZ9") "c0ffee" "zZ9") ∅;
       calls := [KvGet (kvKey "c0ffee"); fetch_call ex_env;
                 KvPut (kvKey "c0ffee")
                   (new_invite (ex_world ex_t0 "zZ9") "c0ffee" "zZ9") 120] |}.
Proof.
  apply (unknown_identifier_is_issued_and_stored (ex_world ex_t0 "zZ9") ex_env
           ex_req ex_kv "c0ffee" ∅ "zZ9").
  - reflexivity.
  - reflexivity.
  - reflexivity.
  - reflexivity.
  - discriminate.
  - reflexivity.
  - apply ex_world_issues. discriminate.
  - reflexivity.
Defined.

(** X13.  A cached record with time left whose expiry lies outside the range
    of JavaScript dates is neither served nor deleted: formatting it for the
    log of line 84 throws inside the [try] of line 72, and the handler goes
    on to the issuing step from the unchanged namespace. *)
Theorem unformattable_expiry_falls_through w env req KV id e m :
  reaches_core env req = true ->
  DISCORD_INVITES env = Some KV -> get_throws KV = false ->
  q_uuid req = Some id -> id <> "" ->
  m !! kvKey id = Some e ->
  expiresAt (value e) - Date_now w > 10000 ->
  valid_time (expiresAt (value e)) = false ->
  GET w env req m
  = {| returned := returned (generate_invite w (Date_now w) env id m);
       kv_after := kv_after (generate_invite w (Date_now w) env id m);
       calls :=
         KvGet (kvKey id) :: calls (generate_invite w (Date_now w) env id m) |}.
Proof.
  intros Hcore Hb Hg Hq Hid Hm Hrem Hv. rewrite (GET_core w env req Hcore).
  pose proof (consult_invalid_date (Date_now w) env KV id m e Hb Hid Hg Hm
                Hrem Hv) as Hc.
  destruct (resolved_supplied w req id Hq Hid) as [Hres Hidc].
  rewrite lifecycle_issues by (rewrite Hq, Hc; reflexivity).
  rewrite Hq, Hc, Hres, Hidc. reflexivity.
Qed.

Lemma unformattable_expiry_falls_through_witness :
  calls (GET (ex_world ex_t0 "zZ9") ex_env ex_req
           {[ kvKey "c0ffee" :=
                {| value := {| uuid := "c0ffee"; code := "aBcD1234";
                               expiresAt := MAX_TIME + 1;
                               createdAt := ex_t0 |};
                   expirationTtl := 120 |} ]})
  = [KvGet (kvKey "c0ffee"); fetch_call ex_env;
     KvPut (kvKey "c0ffee") (new_invite (ex_world ex_t0 "zZ9") "c0ffee" "zZ9")
       120].
Proof.
  rewrite (unformattable_expiry_falls_through (ex_world ex_t0 "zZ9") ex_env
             ex_req ex_kv "c0ffee"
             {| value := {| uuid := "c0ffee"; code := "aBcD1234";
                            expiresAt := MAX_TIME + 1; createdAt := ex_t0 |};
                expirationTtl := 120 |}).
  - reflexivity.
  - reflexivity.
  - reflexivity.
  - reflexivity.
  - reflexivity.
  - discriminate.
  - reflexivity.
  - reflexivity.
  - reflexivity.
Defined.

(** ** The namespace over many requests *)

Lemma kvKey_inj a b : kvKey a = kvKey b -> a = b.
Proof. unfold kvKey. cbn. intros [= H]. exact H. Qed.

Lemma new_entry_written_by_handler w id c :
  written_by_handler (kvKey id)
    {| value := new_invite w id c; expirationTtl := 120 |}.
Proof. repeat split. Qed.

Lemma GET_preserves_consistent w env req m :
  consistent_store m -> consistent_store (kv_after (GET w env req m)).
Proof.
  intros Hwf.
  assert (Hc : consistent_store
                 (kv_after (consult_cache (Date_now w) env (q_uuid req) m))).
  { destruct (consult_store (Date_now w) env (q_uuid req) m)
      as [-> | (KV & id & e & _ & _ & _ & _ & _ & ->)]; [exact Hwf |].
    unfold after_delete. destruct (delete_throws KV); [exact Hwf |].
    intros key e' [_ Hl]%lookup_delete_Some. by eapply Hwf. }
  destruct (reaches_core env req) eqn:Hcore.
  2: { by destruct (GET_filtered w env req m Hcore) as [-> _]. }
  rewrite (GET_core w env req Hcore).
  destruct (returned (consult_cache (Date_now w) env (q_uuid req) m)) eqn:Hret.
  - by rewrite (lifecycle_served w env req m r Hret).
  - rewrite (lifecycle_issues w env req m Hret). cbv zeta. cbn [kv_after].
    destruct (generate_store w env (resolved_id w req)
                (kv_after (consult_cache (Date_now w) env (q_uuid req) m)))
      as [-> | (c & _ & ->)]; [exact Hc |].
    unfold after_put. destruct (DISCORD_INVITES env) as [KV|]; [| exact Hc].
    destruct (put_throws KV); [exact Hc |].
    intros key e' [[<- <-] | [_ Hl]]%lookup_insert_Some.
    + apply new_entry_written_by_handler.
    + by eapply Hc.
Qed.

(** X14.  However many requests are served, whatever they carry and however
    the collaborators answer, a namespace that starts out holding only
    entries as the handler writes them (each under the key of its own
    identifier, expiring 120,000 ms after its creation, with a TTL of 120 s)
    holds only such entries afterwards; so does one that starts out empty. *)
Theorem namespace_stays_consistent l m :
  consistent_store m -> consistent_store (serve_all l m).
Proof.
  revert m. induction l as [|[[w env] req] l IH]; intros m Hm; [exact Hm |].
  cbn [serve_all]. apply IH. by apply GET_preserves_consistent.
Qed.

Lemma namespace_stays_consistent_witness :
  written_by_handler (kvKey "9b2f6c1e")
    {| value := new_invite (ex_world (ex_t0 + 1000) "zZ9") "9b2f6c1e" "zZ9";
       expirationTtl := 120 |}.
Proof.
  apply (namespace_stays_consistent
           [(ex_world ex_t0 "aBcD1234", ex_env, ex_req);
            (ex_world (ex_t0 + 1000) "zZ9", ex_env, ex_req_anonymous)] ∅).
  - intros key e He. by rewrite lookup_empty in He.
  - vm_compute. reflexivity.
Defined.

Lemma ex_store_consistent : consistent_store ex_store.
Proof.
  unfold ex_store. intros key e [<- <-]%lookup_singleton_Some. repeat split.
Qed.

(** X15.  In a namespace that holds only entries as the handler writes them,
    every invite answer names the identifier the request works with: the one
    the caller supplied, or else the one drawn for it. *)
Theorem answer_names_the_requests_identifier w env req m st u c e cached t :
  consistent_store m ->
  returned (GET w env req m)
  = {| status := st; body := InviteBody u c e cached t |} ->
  u = resolved_id w req.
Proof.
  intros Hwf. unfold GET.
  destruct (cors_violation req); [discriminate |].
  destruct (missing_configuration env); [discriminate |].
  destruct (truthy (q_email req)); [discriminate |].
  destruct (bot_user_agent req); [discriminate |].
  destruct (lifecycle_run_cases w env req m)
    as [(id & e' & Hq & Hid & Hm & ->) | (m' & -> & _)].
  - cbn [returned]. unfold cached_response. intros [= ? ? ? ? ? ?]; subst.
    destruct (resolved_supplied w req id Hq Hid) as [-> _].
    destruct (Hwf _ _ Hm) as (Hkey & _). by apply kvKey_inj in Hkey.
  - destruct (generate_answer w env (resolved_id w req) m')
      as [(c' & _ & _ & ->) | [(msg & ->) | (fr & d & Hfr & Hok & ->)]];
      try discriminate.
    unfold issued_response. by intros [= ? ? ? ? ? ?].
Qed.

Lemma answer_names_the_requests_identifier_witness :
  "c0ffee" = resolved_id (ex_world (ex_t0 + 60000) "zZ9") ex_req.
Proof.
  apply (answer_names_the_requests_identifier (ex_world (ex_t0 + 60000) "zZ9")
           ex_env ex_req ex_store 200 "c0ffee" "aBcD1234" (ex_t0 + 120000)
           true (ex_t0 + 60000)).
  - exact ex_store_consistent.
  - reflexivity.
Defined.

(** ** Rejected requests *)

(** X16.  A request is turned away by one of the four filters exactly when
    the handler makes no call at all; it then leaves the namespace untouched
    and answers 400, 403 or 500.  A request that passes them always has the
    cache read, under the key of the identifier it supplied, or Discord
    called. *)
Theorem rejected_iff_no_call w env req m :
  (reaches_core env req = false <-> calls (GET w env req m) = [])
  /\ (reaches_core env req = false ->
      kv_after (GET w env req m) = m
      /\ (status (returned (GET w env req m)) = 400
          \/ status (returned (GET w env req m)) = 403
          \/ status (returned (GET w env req m)) = 500))
  /\ (reaches_core env req = true ->
      (exists id, q_uuid req = Some id
                  /\ KvGet (kvKey id) ∈ calls (GET w env req m))
      \/ fetch_call env ∈ calls (GET w env req m)).
Proof.
  split; [| split].
  - split; [intros H; by destruct (GET_filtered w env req m H) |].
    destruct (reaches_core env req) eqn:Hcore; [| done].
    rewrite (GET_core w env req Hcore).
    destruct (lifecycle_run_cases w env req m)
      as [(id & e & _ & _ & _ & ->) | (m' & _ & Hin)]; [discriminate |].
    intros Hnil. rewrite Hnil in Hin. by apply elem_of_nil in Hin.
  - intros H. split; [by destruct (GET_filtered w env req m H) |].
    unfold reaches_core in H. unfold GET.
    destruct (cors_violation req); [cbn; auto |].
    destruct (missing_configuration env); [cbn; auto |].
    destruct (truthy (q_email req)); [cbn; auto |].
    destruct (bot_user_agent req); [cbn; auto | discriminate H].
  - intros Hcore. rewrite (GET_core w env req Hcore).
    destruct (lifecycle_run_cases w env req m)
      as [(id & e & Hq & _ & _ & ->) | (m' & _ & Hin)]; [left | by right].
    exists id. split; [exact Hq | apply list_elem_of_here].
Qed.

Lemma rejected_iff_no_call_witness :
  calls (GET (ex_world ex_t0 "zZ9") ex_env ex_req_foreign_bot ex_store) = []
  /\ kv_after (GET (ex_world ex_t0 "zZ9") ex_env ex_req_foreign_bot ex_store)
     = ex_store.
Proof.
  destruct (rejected_iff_no_call (ex_world ex_t0 "zZ9") ex_env
              ex_req_foreign_bot ex_store) as [[Hno _] [Hrej _]].
  split; [apply Hno; reflexivity | apply Hrej; reflexivity].
Defined.
